(** * CI/CD leaderboard scorer: a shallow embedding of [score.mjs]

    The scorer audits every team of a roster against the fixed catalogue
    [CHECKS], adds up the points of the checks that pass, sorts the teams by
    total and numbers them.  This file embeds the catalogue, [scoreTeam] and
    [main], and proves properties of them.

    Modelling conventions.
    - Text is a [string] of 8-bit characters.  The model is exact on ASCII
      text: [toLowerCase] folds [A-Z] only, [\s] is the ASCII white space and
      a character above 127 is an opaque symbol.  The decorative symbols of
      the source's labels and details are carried as their UTF-8 bytes.
    - Numbers are [Z]; the one division of the program (the mean duration of
      [pipeline_fast]) is taken in [Q].
    - [await]ed calls that may reject are values of [res]: [Ok v] or
      [Throw msg], where [msg] is the [message] of the error thrown.
    - Everything the program reads from outside (the GitHub API, the raw
      file host, the deploy URL) is one [World] of functions, so the remote
      state is the same for every request of a run.
    - [console.log] output is not modelled. *)

From Stdlib Require Import List String Ascii ZArith QArith Qround Qabs Lia Bool.
From Stdlib Require Import Permutation Sorted DecimalString.
Import ListNotations.

Local Open Scope string_scope.
Local Open Scope Z_scope.

(** ** JavaScript strings *)

Module Js.

(** The characters that cannot be written inside a string literal here. *)
Definition dquote_char : ascii := ascii_of_nat 34.
Definition newline_char : ascii := ascii_of_nat 10.
Definition dquote : string := String dquote_char EmptyString.
Definition newline : string := String newline_char EmptyString.

Definition is_upper (c : ascii) : bool :=
  let n := nat_of_ascii c in (Nat.leb 65 n && Nat.leb n 90)%bool.

Definition lower_char (c : ascii) : ascii :=
  if is_upper c then ascii_of_nat (nat_of_ascii c + 32) else c.

(** [s.toLowerCase()] *)
Fixpoint toLowerCase (s : string) : string :=
  match s with
  | EmptyString => EmptyString
  | String c r => String (lower_char c) (toLowerCase r)
  end.

(** [s.startsWith(t)] *)
Fixpoint startsWith (s t : string) : bool :=
  match t, s with
  | EmptyString, _ => true
  | String _ _, EmptyString => false
  | String b t', String a s' => (Ascii.eqb a b && startsWith s' t')%bool
  end.

(** [s.includes(t)] *)
Fixpoint includes (s t : string) : bool :=
  match s with
  | EmptyString => startsWith EmptyString t
  | String _ r => (startsWith s t || includes r t)%bool
  end.

(** [s.endsWith(t)]: [t] starts at position [length s - length t]. *)
Fixpoint endsWith (s t : string) : bool :=
  match s with
  | EmptyString => String.eqb t EmptyString
  | String _ r => (String.eqb s t || endsWith r t)%bool
  end.

(** A value is falsy when used as a condition: [null], [undefined] and the
    empty string are. *)
Definition truthy (o : option string) : bool :=
  match o with
  | Some s => negb (String.eqb s EmptyString)
  | None => false
  end.

(** [`${n}`] for an integer [n]. *)
Definition of_Z (n : Z) : string := NilZero.string_of_int (Z.to_int n).

Definition of_nat (n : nat) : string := of_Z (Z.of_nat n).

(** [xs.join(sep)] *)
Fixpoint join (sep : string) (xs : list string) : string :=
  match xs with
  | [] => EmptyString
  | [x] => x
  | x :: rest => x ++ sep ++ join sep rest
  end.

(** [`${v}`] for a value that may be [null]. *)
Definition of_nullable (o : option string) : string :=
  match o with Some s => s | None => "null" end.

(** [s.split("/")]: the pieces between the slashes. *)
Fixpoint split_slash (s : string) : list string :=
  match s with
  | EmptyString => [EmptyString]
  | String c r =>
      if Ascii.eqb c "/"%char then EmptyString :: split_slash r
      else match split_slash r with
           | [] => [String c EmptyString]
           | p :: ps => String c p :: ps
           end
  end.

(** [`${xs[i]}`]: a missing piece prints as [undefined]. *)
Definition piece (xs : list string) (i : nat) : string :=
  nth i xs "undefined".

End Js.

(** ** Regular expressions

    The regular expression literals of the source use classes, sequence,
    alternative, repetition and the end anchor only, so [p.test(s)] is
    membership of some substring in a regular language.  It is decided with
    derivatives. *)

Module Regex.

Inductive regex : Type :=
| Never : regex
| Eps : regex
| Cls : (ascii -> bool) -> regex
| Seq : regex -> regex -> regex
| Alt : regex -> regex -> regex
| Star : regex -> regex.

Fixpoint nullable (r : regex) : bool :=
  match r with
  | Never => false
  | Eps => true
  | Cls _ => false
  | Seq a b => (nullable a && nullable b)%bool
  | Alt a b => (nullable a || nullable b)%bool
  | Star _ => true
  end.

Fixpoint deriv (c : ascii) (r : regex) : regex :=
  match r with
  | Never => Never
  | Eps => Never
  | Cls p => if p c then Eps else Never
  | Seq a b =>
      if nullable a then Alt (Seq (deriv c a) b) (deriv c b)
      else Seq (deriv c a) b
  | Alt a b => Alt (deriv c a) (deriv c b)
  | Star a => Seq (deriv c a) (Star a)
  end.

(** Does the whole of [s] belong to the language of [r]? *)
Fixpoint matches (r : regex) (s : string) : bool :=
  match s with
  | EmptyString => nullable r
  | String c s' => matches (deriv c r) s'
  end.

(** A literal: its body, and whether it ends with [$]. *)
Record literal : Type := Literal { body : regex; to_end : bool }.

Definition any : regex := Cls (fun _ => true).

(** [p.test(s)]: a match may start anywhere, and stops anywhere unless the
    literal is anchored at the end. *)
Definition test (p : literal) (s : string) : bool :=
  matches (Seq (Star any) (Seq (body p) (if to_end p then Eps else Star any))) s.

(** Building blocks. *)
Definition chr (c : ascii) : regex := Cls (Ascii.eqb c).

(** A character under the [i] flag. *)
Definition chr_i (c : ascii) : regex :=
  Cls (fun x => Ascii.eqb (Js.lower_char x) (Js.lower_char c)).

Fixpoint str (s : string) : regex :=
  match s with
  | EmptyString => Eps
  | String c r => Seq (chr c) (str r)
  end.

Fixpoint str_i (s : string) : regex :=
  match s with
  | EmptyString => Eps
  | String c r => Seq (chr_i c) (str_i r)
  end.

Definition opt (r : regex) : regex := Alt r Eps.
Definition plus (r : regex) : regex := Seq r (Star r).

Fixpoint at_least (n : nat) (r : regex) : regex :=
  match n with
  | O => Star r
  | S k => Seq r (at_least k r)
  end.

(** [.]: any character but a line terminator. *)
Definition dot : regex :=
  Cls (fun c => negb (Ascii.eqb c Js.newline_char || Ascii.eqb c (ascii_of_nat 13))).

(** [\s] *)
Definition is_space (c : ascii) : bool :=
  let n := nat_of_ascii c in (Nat.leb 9 n && Nat.leb n 13 || Nat.eqb n 32)%bool.
Definition space : regex := Cls is_space.

(** The class of the double and the single quote, and its complement. *)
Definition is_quote (c : ascii) : bool :=
  (Ascii.eqb c Js.dquote_char || Ascii.eqb c "'"%char)%bool.
Definition is_not_quote (c : ascii) : bool := negb (is_quote c).
Definition quote : regex := Cls is_quote.
Definition not_quote : regex := Cls is_not_quote.

(** [[a-zA-Z0-9]] *)
Definition is_alnum (c : ascii) : bool :=
  let n := nat_of_ascii c in
  (Nat.leb 97 n && Nat.leb n 122 || Nat.leb 65 n && Nat.leb n 90
   || Nat.leb 48 n && Nat.leb n 57)%bool.
Definition alnum : regex := Cls is_alnum.

Fixpoint alts (rs : list regex) : regex :=
  match rs with
  | [] => Never
  | [r] => r
  | r :: rest => Alt r (alts rest)
  end.

Fixpoint seqs (rs : list regex) : regex :=
  match rs with
  | [] => Eps
  | [r] => r
  | r :: rest => Seq r (seqs rest)
  end.

(** The language of a regular expression, to state what [matches]
    decides. *)
Inductive lang : regex -> string -> Prop :=
| lang_eps : lang Eps EmptyString
| lang_cls : forall (p : ascii -> bool) (c : ascii),
    p c = true -> lang (Cls p) (String c EmptyString)
| lang_seq : forall (a b : regex) (s1 s2 : string),
    lang a s1 -> lang b s2 -> lang (Seq a b) (s1 ++ s2)
| lang_alt_l : forall (a b : regex) (s : string), lang a s -> lang (Alt a b) s
| lang_alt_r : forall (a b : regex) (s : string), lang b s -> lang (Alt a b) s
| lang_star_nil : forall a : regex, lang (Star a) EmptyString
| lang_star_cons : forall (a : regex) (s1 s2 : string),
    lang a s1 -> lang (Star a) s2 -> lang (Star a) (s1 ++ s2).

(** Every character of the string is in the class. *)
Fixpoint all_chars (p : ascii -> bool) (s : string) : bool :=
  match s with
  | EmptyString => true
  | String c r => (p c && all_chars p r)%bool
  end.

End Regex.

(** ** Calls that may reject *)

Inductive res (A : Type) : Type :=
| Ok : A -> res A
| Throw : string -> res A.

Arguments Ok {A} _.
Arguments Throw {A} _.

Definition bind {A B : Type} (c : res A) (k : A -> res B) : res B :=
  match c with
  | Ok a => k a
  | Throw msg => Throw msg
  end.

Notation "x <- c ;; k" := (bind c (fun x => k))
  (at level 61, c at next level, right associativity).

(** ** Data read from outside *)

(** A record of [teams.json]. *)
Record Team : Type := mkTeam {
  t_team : string;
  t_members : list string;
  t_repo : string;
  t_deploy_url : option string
}.

Record TreeEntry : Type := mkEntry { path : string }.

Record Run : Type := mkRun {
  id : Z;
  conclusion : option string;
  status : string;
  run_number : Z;
  created_at : Z;   (* [new Date(run.created_at)], in milliseconds *)
  updated_at : Z    (* [new Date(run.updated_at)], in milliseconds *)
}.

Record Job : Type := mkJob { job_name : string; job_conclusion : option string }.

Record Artifact : Type := mkArtifact { artifact_name : string }.

Record Protection : Type := mkProtection {
  message : option string;
  required_pull_request_reviews : bool   (* is the member present and truthy *)
}.

Record Response : Type := mkResponse { http_status : Z }.

(** [res.ok] *)
Definition ok (r : Response) : bool :=
  ((200 <=? http_status r) && (http_status r <=? 299))%bool.

(** What the program reads.  Each [gh_*] function is [gh] at one path of the
    API and gives [None] where the source sees [null] or a missing member;
    [gh_runs w owner repo st n] is the member [workflow_runs] of
    [/repos/owner/repo/actions/runs?branch=main&per_page=n], with
    [&status=s] when [st] is [Some s];
    [ghRaw] is the raw file host; [fetch] is the request to a deploy URL,
    which throws on a network error or when it is aborted after 10 s.
    [toFixed1] is the host's [Number.prototype.toFixed(1)]. *)
Record World : Type := mkWorld {
  gh_tree : string -> string -> res (option (list TreeEntry));
  gh_runs : string -> string -> option string -> Z -> res (option (list Run));
  gh_jobs : string -> string -> Z -> res (option (list Job));
  gh_artifacts : string -> string -> Z -> res (option (list Artifact));
  gh_packages : string -> string -> res (option (list unit));
  gh_protection : string -> string -> res (option Protection);
  ghRaw : string -> string -> string -> res (option string);
  fetch : string -> res Response;
  toFixed1 : Q -> string
}.

(** ** Checks *)

Record Verdict : Type := mkVerdict { pass : bool; detail : string }.

Definition yes (d : string) : Verdict := mkVerdict true d.
Definition no (d : string) : Verdict := mkVerdict false d.

Inductive Category : Type := fundamentals | intermediate | advanced.

Record Check : Type := mkCheck {
  points : Z;
  category : Category;
  label : string;
  run : World -> string -> string -> Team -> res Verdict
}.

(** [conclusion === "success"] *)
Definition is_success (c : option string) : bool :=
  match c with Some s => String.eqb s "success" | None => false end.

(** The filter every workflow check applies to the tree. *)
Definition is_workflow (f : TreeEntry) : bool :=
  (Js.startsWith (path f) ".github/workflows/" && Js.endsWith (path f) ".yml")%bool.

Definition wfFiles (tree : list TreeEntry) : list string :=
  map path (filter is_workflow tree).

(** The loop shared by the checks that read files:
    [for (const f of files) { const content = await ghRaw(owner, repo, f);
       if (!content) continue; if (...) return ...; }]
    [body] gives [Some v] where the loop body returns or breaks with [v]. *)
Fixpoint scan {A : Type} (w : World) (owner repo : string) (files : list string)
    (body : string -> string -> option A) : res (option A) :=
  match files with
  | [] => Ok None
  | f :: rest =>
      content <- ghRaw w owner repo f ;;
      match content with
      | Some c =>
          if String.eqb c EmptyString then scan w owner repo rest body
          else match body f c with
               | Some v => Ok (Some v)
               | None => scan w owner repo rest body
               end
      | None => scan w owner repo rest body
      end
  end.

Definition or_else {A : Type} (o : option A) (d : A) : A :=
  match o with Some v => v | None => d end.

Definition any_of (s : string) (keywords : list string) : bool :=
  existsb (Js.includes s) keywords.

Module Checks.

Definition pipeline_exists (w : World) (owner repo : string) (_ : Team) : res Verdict :=
  tree <- gh_tree w owner repo ;;
  match tree with
  | None => Ok (no "Cannot read repo tree")
  | Some t =>
      let wf := wfFiles t in
      Ok (mkVerdict (0 <? Z.of_nat (List.length wf))
                    (Js.of_nat (List.length wf) ++ " workflow(s) found"))
  end.

Definition pipeline_green (w : World) (owner repo : string) (_ : Team) : res Verdict :=
  runs <- gh_runs w owner repo None 1 ;;
  match runs with
  | None | Some [] => Ok (no "No runs found")
  | Some (last :: _) =>
      Ok (mkVerdict (is_success (conclusion last))
            ("Last run: "
             ++ (if Js.truthy (conclusion last)
                 then Js.of_nullable (conclusion last) else status last)
             ++ " (#" ++ Js.of_Z (run_number last) ++ ")"))
  end.

Definition lint_keywords : list string :=
  ["lint"; "ruff"; "flake8"; "pylint"; "eslint"; "prettier"].

Definition lint_pass (w : World) (owner repo : string) (_ : Team) : res Verdict :=
  tree <- gh_tree w owner repo ;;
  match tree with
  | None => Ok (no "Cannot read repo")
  | Some t =>
      hit <- scan w owner repo (wfFiles t) (fun wf content =>
               let lower := Js.toLowerCase content in
               if any_of lower lint_keywords
               then Some (yes ("Lint found in " ++ wf)) else None) ;;
      Ok (or_else hit (no "No lint step found in workflows"))
  end.

Definition secret_files : list string :=
  ["main.py"; "app.js"; "database/database.py"; "database/database.js"].

(** [/(?:SECRET_KEY|API_KEY|DB_PASSWORD|PASSWORD)\s*=\s*Q[^Q]{6,}Q/i],
    where [Q] stands for the class of the double and the single quote. *)
Definition credential_pattern : Regex.literal :=
  Regex.Literal
    (Regex.seqs
       [ Regex.alts [ Regex.str_i "SECRET_KEY"; Regex.str_i "API_KEY";
                      Regex.str_i "DB_PASSWORD"; Regex.str_i "PASSWORD" ];
         Regex.Star Regex.space; Regex.chr "="; Regex.Star Regex.space;
         Regex.quote; Regex.at_least 6 Regex.not_quote; Regex.quote ])
    false.

(** [/sk-proj-[a-zA-Z0-9]+/] *)
Definition api_key_pattern : Regex.literal :=
  Regex.Literal (Regex.Seq (Regex.str "sk-proj-") (Regex.plus Regex.alnum)) false.

(** [/super_secret/i] *)
Definition super_secret_pattern : Regex.literal :=
  Regex.Literal (Regex.str_i "super_secret") false.

(** [/admin123/] *)
Definition admin_pattern : Regex.literal :=
  Regex.Literal (Regex.str "admin123") false.

Definition secret_patterns : list Regex.literal :=
  [credential_pattern; api_key_pattern; super_secret_pattern; admin_pattern].

Definition has_secret (content : string) : bool :=
  existsb (fun p => Regex.test p content) secret_patterns.

Definition no_secrets_in_code (w : World) (owner repo : string) (_ : Team) : res Verdict :=
  hit <- scan w owner repo secret_files (fun file content =>
           if has_secret content
           then Some (no ("Secret found in " ++ file)) else None) ;;
  Ok (or_else hit (yes "No hardcoded secrets detected")).

Definition ext_js_ts : Regex.regex :=
  Regex.alts [Regex.str_i "js"; Regex.str_i "ts"].

Definition test_file_patterns : list Regex.literal :=
  [ Regex.Literal
      (Regex.seqs
         [ Regex.str_i "test"; Regex.opt (Regex.Alt (Regex.chr_i "_") (Regex.chr_i "s"));
           Regex.Star Regex.dot; Regex.chr ".";
           Regex.alts [Regex.str_i "py"; Regex.str_i "js"; Regex.str_i "ts"] ])
      true;
    Regex.Literal
      (Regex.seqs [Regex.Star Regex.dot; Regex.str_i ".test."; ext_js_ts]) true;
    Regex.Literal
      (Regex.seqs [Regex.Star Regex.dot; Regex.str_i ".spec."; ext_js_ts]) true;
    Regex.Literal
      (Regex.seqs [Regex.Star Regex.dot; Regex.str_i "_test.py"]) true ].

Definition is_test_file (f : TreeEntry) : bool :=
  existsb (fun p => Regex.test p (path f)) test_file_patterns.

Definition test_runner_keywords : list string :=
  ["pytest"; "jest"; "vitest"; "npm test"; "npm run test"].

Definition tests_exist (w : World) (owner repo : string) (_ : Team) : res Verdict :=
  tree <- gh_tree w owner repo ;;
  match tree with
  | None => Ok (no "Cannot read repo")
  | Some t =>
      let testFiles := filter is_test_file t in
      if Nat.eqb (List.length testFiles) 0 then Ok (no "No test files found")
      else
        hit <- scan w owner repo (wfFiles t) (fun _ content =>
                 let lower := Js.toLowerCase content in
                 if any_of lower test_runner_keywords
                 then Some (yes (Js.of_nat (List.length testFiles)
                                 ++ " test file(s), tests run in CI"))
                 else None) ;;
        Ok (or_else hit (no (Js.of_nat (List.length testFiles)
                             ++ " test file(s) but not run in CI")))
  end.

Definition is_test_job (j : Job) : bool :=
  let n := Js.toLowerCase (job_name j) in
  (Js.includes n "test" || Js.includes n "ci" || Js.includes n "build")%bool.

Definition tests_pass (w : World) (owner repo : string) (_ : Team) : res Verdict :=
  runs <- gh_runs w owner repo None 1 ;;
  match runs with
  | None | Some [] => Ok (no "No runs")
  | Some (last :: _) =>
      if negb (is_success (conclusion last)) then Ok (no "Pipeline not green")
      else
        jobs <- gh_jobs w owner repo (id last) ;;
        match jobs with
        | None => Ok (no "Cannot read jobs")
        | Some js =>
            match find is_test_job js with
            | Some testJob =>
                Ok (mkVerdict (is_success (job_conclusion testJob))
                      ("Job " ++ Js.dquote ++ job_name testJob ++ Js.dquote ++ ": "
                       ++ Js.of_nullable (job_conclusion testJob)))
            | None => Ok (no "No test job found")
            end
        end
  end.

Definition coverage_70 (w : World) (owner repo : string) (_ : Team) : res Verdict :=
  tree <- gh_tree w owner repo ;;
  match tree with
  | None => Ok (no "Cannot read repo")
  | Some t =>
      found <- scan w owner repo (wfFiles t) (fun _ content =>
                 if (Js.includes content "--cov" || Js.includes content "coverage"
                     || Js.includes content "--coverage")%bool
                 then Some tt else None) ;;
      let hasCoverage := match found with Some _ => true | None => false end in
      if negb hasCoverage then Ok (no "No coverage step found in CI")
      else
        runs <- gh_runs w owner repo None 1 ;;
        match runs with
        | None | Some [] => Ok (no "No runs")
        | Some (first :: _) =>
            artifacts <- gh_artifacts w owner repo (id first) ;;
            let covArtifact :=
              match artifacts with
              | Some l =>
                  find (fun a =>
                          (Js.includes (Js.toLowerCase (artifact_name a)) "coverage"
                           || Js.includes (Js.toLowerCase (artifact_name a)) "cov")%bool) l
              | None => None
              end in
            let isGreen := is_success (conclusion first) in
            Ok (mkVerdict (hasCoverage && isGreen)
                  (if hasCoverage
                   then "Coverage in CI, pipeline "
                        ++ (if isGreen then "green ✅" else "red ❌")
                        ++ (match covArtifact with
                            | Some _ => ", artifact found"
                            | None => EmptyString
                            end)
                   else "No coverage"))
        end
  end.

Definition dockerfile_exists (w : World) (owner repo : string) (_ : Team) : res Verdict :=
  content <- ghRaw w owner repo "Dockerfile" ;;
  Ok (mkVerdict (Js.truthy content)
        (if Js.truthy content then "Dockerfile found" else "No Dockerfile at root")).

Definition docker_builds (w : World) (owner repo : string) (_ : Team) : res Verdict :=
  tree <- gh_tree w owner repo ;;
  match tree with
  | None => Ok (no "Cannot read repo")
  | Some t =>
      hit <- scan w owner repo (wfFiles t) (fun wf content =>
               if (Js.includes content "docker"
                   && (Js.includes content "build" || Js.includes content "build-push"))%bool
               then Some (yes ("Docker build in " ++ wf)) else None) ;;
      Ok (or_else hit (no "No docker build step in CI"))
  end.

Definition security_keywords : list string :=
  ["trivy"; "bandit"; "snyk"; "codeql"; "npm audit"; "pip-audit"; "safety";
   "gitleaks"; "semgrep"; "grype"].

Definition security_scan (w : World) (owner repo : string) (_ : Team) : res Verdict :=
  tree <- gh_tree w owner repo ;;
  match tree with
  | None => Ok (no "Cannot read repo")
  | Some t =>
      hit <- scan w owner repo (wfFiles t) (fun wf content =>
               let lower := Js.toLowerCase content in
               let found := filter (Js.includes lower) security_keywords in
               if (0 <? Z.of_nat (List.length found))
               then Some (yes ("Found: " ++ Js.join ", " found ++ " in " ++ wf))
               else None) ;;
      Ok (or_else hit (no "No security scan found in workflows"))
  end.

Definition ghcr_published (w : World) (owner repo : string) (_ : Team) : res Verdict :=
  packages <- gh_packages w owner repo ;;
  if (match packages with
      | Some l => 0 <? Z.of_nat (List.length l)
      | None => false
      end)
  then Ok (yes (Js.of_nat (List.length (or_else packages [])) ++ " package(s) published"))
  else
    tree <- gh_tree w owner repo ;;
    match tree with
    | None => Ok (no "No packages found")
    | Some t =>
        hit <- scan w owner repo (wfFiles t) (fun wf content =>
                 if (Js.includes content "ghcr.io" && Js.includes content "push")%bool
                 then Some (yes ("GHCR push configured in " ++ wf)) else None) ;;
        Ok (or_else hit (no "No container packages found"))
    end.

Definition quality_keywords : list string :=
  ["sonar"; "codeclimate"; "codecov"; "quality"].

Definition is_sonar_file (f : TreeEntry) : bool :=
  (Js.includes (path f) "sonar-project.properties"
   || Js.includes (path f) "sonarcloud")%bool.

Definition quality_gate (w : World) (owner repo : string) (_ : Team) : res Verdict :=
  tree <- gh_tree w owner repo ;;
  match tree with
  | None => Ok (no "Cannot read repo")
  | Some t =>
      let sonarFiles := filter is_sonar_file t in
      hit <- scan w owner repo (wfFiles t) (fun _ content =>
               let lower := Js.toLowerCase content in
               let found := filter (Js.includes lower) quality_keywords in
               if (0 <? Z.of_nat (List.length found))
               then Some (yes ("Found: " ++ Js.join ", " found))
               else None) ;;
      match hit with
      | Some v => Ok v
      | None =>
          if (0 <? Z.of_nat (List.length sonarFiles)) then Ok (yes "Sonar config found")
          else Ok (no "No quality gate configured")
      end
  end.

Definition deployed (w : World) (_owner _repo : string) (team : Team) : res Verdict :=
  if negb (Js.truthy (t_deploy_url team)) then Ok (no "No deploy_url in teams.json")
  else
    let url := or_else (t_deploy_url team) EmptyString in
    match fetch w url with
    | Ok r => Ok (mkVerdict (ok r) (url ++ " → HTTP " ++ Js.of_Z (http_status r)))
    | Throw msg => Ok (no (url ++ " → " ++ msg))
    end.

Definition branch_protection (w : World) (owner repo : string) (_ : Team) : res Verdict :=
  prot <- gh_protection w owner repo ;;
  match prot with
  | None => Ok (no "No branch protection")
  | Some p =>
      if Js.truthy (message p) then Ok (no "No branch protection")
      else
        let prRequired := required_pull_request_reviews p in
        Ok (mkVerdict prRequired
              (if prRequired then "PR required before merge ✅"
               else "Protection exists but PR not required"))
  end.

Definition deploy_keywords : list string := ["deploy"; "render"; "fly.io"; "railway"].

Definition auto_deploy (w : World) (owner repo : string) (_ : Team) : res Verdict :=
  tree <- gh_tree w owner repo ;;
  match tree with
  | None => Ok (no "Cannot read repo")
  | Some t =>
      hit <- scan w owner repo (wfFiles t) (fun wf content =>
               let lower := Js.toLowerCase content in
               if (any_of lower deploy_keywords
                   && (Js.includes lower "push" && Js.includes lower "main"))%bool
               then Some (yes ("Deploy on push to main in " ++ wf)) else None) ;;
      Ok (or_else hit (no "No auto-deploy workflow found"))
  end.

Definition env_names : list string := ["staging"; "production"; "prod"; "dev"].

Definition multi_env (w : World) (owner repo : string) (_ : Team) : res Verdict :=
  tree <- gh_tree w owner repo ;;
  match tree with
  | None => Ok (no "Cannot read repo")
  | Some t =>
      hit <- scan w owner repo (wfFiles t) (fun _ content =>
               let lower := Js.toLowerCase content in
               let envs := filter (fun e =>
                             (Js.includes lower ("environment: " ++ e)
                              || Js.includes lower ("environment:" ++ Js.newline))%bool)
                             env_names in
               if ((2 <=? Z.of_nat (List.length envs))
                   || (Js.includes lower "staging" && Js.includes lower "prod"))%bool
               then Some (yes "Multiple environments detected") else None) ;;
      Ok (or_else hit (no "Single environment or none"))
  end.

(** [x < y] on numbers. *)
Definition Qltb (x y : Q) : bool :=
  match (x ?= y)%Q with Lt => true | _ => false end.

(** The accumulation loop of [pipeline_fast]. *)
Definition totalMs (runs : list Run) : Z :=
  fold_left (fun acc r => acc + (updated_at r - created_at r)) runs 0.

Definition avgMin (runs : list Run) : Q :=
  (inject_Z (totalMs runs) / inject_Z (Z.of_nat (List.length runs)) / inject_Z 60000)%Q.

Definition pipeline_fast (w : World) (owner repo : string) (_ : Team) : res Verdict :=
  runs <- gh_runs w owner repo (Some "success") 3 ;;
  match runs with
  | None | Some [] => Ok (no "No successful runs")
  | Some rs =>
      Ok (mkVerdict (Qltb (avgMin rs) (inject_Z 3))
            ("Average: " ++ toFixed1 w (avgMin rs) ++ " min (last "
             ++ Js.of_nat (List.length rs) ++ " runs)"))
  end.

Definition dependabot (w : World) (owner repo : string) (_ : Team) : res Verdict :=
  depbot <- ghRaw w owner repo ".github/dependabot.yml" ;;
  if Js.truthy depbot then Ok (yes "dependabot.yml found")
  else
    renovate <- ghRaw w owner repo "renovate.json" ;;
    if Js.truthy renovate then Ok (yes "renovate.json found")
    else
      renovate2 <- ghRaw w owner repo ".github/renovate.json" ;;
      if Js.truthy renovate2 then Ok (yes ".github/renovate.json found")
      else Ok (no "No dependency update config").

End Checks.

(** The catalogue, in the order of [Object.entries(CHECKS)]. *)
Definition CHECKS : list (string * Check) :=
  [ ("pipeline_exists",
     mkCheck 5 fundamentals "Pipeline exists" Checks.pipeline_exists);
    ("pipeline_green",
     mkCheck 5 fundamentals "Pipeline green on main" Checks.pipeline_green);
    ("lint_pass",
     mkCheck 5 fundamentals "Lint step in pipeline" Checks.lint_pass);
    ("no_secrets_in_code",
     mkCheck 5 fundamentals "No hardcoded secrets" Checks.no_secrets_in_code);
    ("tests_exist",
     mkCheck 10 fundamentals "Tests exist in pipeline" Checks.tests_exist);
    ("tests_pass",
     mkCheck 5 fundamentals "Tests pass" Checks.tests_pass);
    ("coverage_70",
     mkCheck 10 fundamentals "Coverage ≥ 70%" Checks.coverage_70);
    ("dockerfile_exists",
     mkCheck 5 fundamentals "Dockerfile exists" Checks.dockerfile_exists);
    ("docker_builds",
     mkCheck 5 fundamentals "Docker build in CI" Checks.docker_builds);
    ("security_scan",
     mkCheck 10 intermediate "Security scan in CI" Checks.security_scan);
    ("ghcr_published",
     mkCheck 10 intermediate "Image on GHCR" Checks.ghcr_published);
    ("quality_gate",
     mkCheck 10 intermediate "Quality gate (SonarCloud etc.)" Checks.quality_gate);
    ("deployed",
     mkCheck 10 intermediate "App deployed (HTTP 200)" Checks.deployed);
    ("branch_protection",
     mkCheck 5 advanced "Branch protection on main" Checks.branch_protection);
    ("auto_deploy",
     mkCheck 10 advanced "Auto-deploy on push to main" Checks.auto_deploy);
    ("multi_env",
     mkCheck 10 advanced "Multiple environments" Checks.multi_env);
    ("pipeline_fast",
     mkCheck 5 advanced "Pipeline < 3 minutes" Checks.pipeline_fast);
    ("dependabot",
     mkCheck 5 advanced "Dependabot/Renovate configured" Checks.dependabot) ].

(** ** Scoring one team *)

(** An entry of [results]: the verdict spread over the check's constants. *)
Record ProbeResult : Type := mkResult {
  r_pass : bool;
  r_detail : string;
  r_points : Z;
  r_label : string;
  r_category : Category
}.

(** A JavaScript object with string keys, in insertion order. *)
Definition object (A : Type) : Type := list (string * A).

(** [o[k] = v] *)
Fixpoint obj_set {A : Type} (o : object A) (k : string) (v : A) : object A :=
  match o with
  | [] => [(k, v)]
  | (k', v') :: rest =>
      if String.eqb k' k then (k, v) :: rest else (k', v') :: obj_set rest k v
  end.

(** [o[k]] *)
Fixpoint obj_get {A : Type} (o : object A) (k : string) : option A :=
  match o with
  | [] => None
  | (k', v') :: rest => if String.eqb k' k then Some v' else obj_get rest k
  end.

Definition keys {A : Type} (o : object A) : list string := map fst o.

(** The three variables the loop of [scoreTeam] updates. *)
Record Tally : Type := mkTally {
  tally_results : object ProbeResult;
  tally_total : Z;
  tally_maxTotal : Z
}.

(** One iteration of [for (const [key, check] of Object.entries(CHECKS))]:
    the first branch is the [try] block, the second the [catch] block. *)
Definition score_step (w : World) (owner repo : string) (team : Team)
    (acc : Tally) (entry : string * Check) : Tally :=
  let (key, check) := entry in
  match run check w owner repo team with
  | Ok result =>
      mkTally
        (obj_set (tally_results acc) key
           (mkResult (pass result) (detail result)
                     (points check) (label check) (category check)))
        (if pass result then tally_total acc + points check else tally_total acc)
        (tally_maxTotal acc + points check)
  | Throw msg =>
      mkTally
        (obj_set (tally_results acc) key
           (mkResult false ("Error: " ++ msg)
                     (points check) (label check) (category check)))
        (tally_total acc)
        (tally_maxTotal acc + points check)
  end.

Record Audit : Type := mkAudit {
  team : string;
  members : list string;
  repo : string;
  deploy_url : option string;
  total : Z;
  maxTotal : Z;
  results : object ProbeResult
}.

(** [const [owner, repo] = team.repo.split("/")] *)
Definition owner_of (t : Team) : string := Js.piece (Js.split_slash (t_repo t)) 0.
Definition repo_of (t : Team) : string := Js.piece (Js.split_slash (t_repo t)) 1.

(** [scoreTeam] over a catalogue [checks]. *)
Definition scoreTeamWith (checks : list (string * Check)) (w : World) (t : Team) : Audit :=
  let final := fold_left (score_step w (owner_of t) (repo_of t) t) checks
                 (mkTally [] 0 0) in
  mkAudit (t_team t) (t_members t) (t_repo t) (t_deploy_url t)
          (tally_total final) (tally_maxTotal final) (tally_results final).

Definition scoreTeam : World -> Team -> Audit := scoreTeamWith CHECKS.

(** ** Sorting and ranking *)

(** The comparator [(a, b) => b.total - a.total]. *)
Definition by_total_desc (a b : Audit) : Z := total b - total a.

(** [Array.prototype.sort] is stable and the comparator orders the totals
    consistently, so the result is the one stable arrangement of the input;
    insertion from the right computes it.  An element moves past those that
    the comparator puts strictly before it. *)
Fixpoint insert (a : Audit) (l : list Audit) : list Audit :=
  match l with
  | [] => [a]
  | b :: rest =>
      if by_total_desc a b <=? 0 then a :: b :: rest else b :: insert a rest
  end.

Fixpoint sort (l : list Audit) : list Audit :=
  match l with
  | [] => []
  | a :: rest => insert a (sort rest)
  end.

Record Ranked : Type := mkRanked { score : Audit; rank : Z }.

(** [scores.forEach((s, i) => (s.rank = i + 1))], from index [i] on. *)
Fixpoint add_rank (i : Z) (l : list Audit) : list Ranked :=
  match l with
  | [] => []
  | s :: rest => mkRanked s (i + 1) :: add_rank (i + 1) rest
  end.

(** Lines 505-509 of [main]. *)
Definition rank_scores (scores : list Audit) : list Ranked :=
  add_rank 0 (sort scores).

(** ** The document *)

Record Output : Type := mkOutput {
  generated_at : string;
  total_possible : Z;
  teams : list Ranked
}.

(** [main] over a catalogue; [now] is [new Date().toISOString()] and
    [roster] the parsed [teams.json]. *)
Definition mainWith (checks : list (string * Check)) (w : World) (now : string)
    (roster : list Team) : Output :=
  let scores := map (scoreTeamWith checks w) roster in
  mkOutput now
           (fold_left (fun s c => s + points (snd c)) checks 0)
           (rank_scores scores).

Definition main : World -> string -> list Team -> Output := mainWith CHECKS.

(** ** Notions used in the statements *)

(** The sum of the points of a catalogue. *)
Fixpoint sum_points (checks : list (string * Check)) : Z :=
  match checks with
  | [] => 0
  | (_, c) :: rest => points c + sum_points rest
  end.

(** What the executor records as the outcome of a check: a check that
    throws counts as failed. *)
Definition passes (r : res Verdict) : bool :=
  match r with
  | Ok v => pass v
  | Throw _ => false
  end.

(** What [toFixed(1)] prints for a number that is exactly the rational [q]:
    the tenths nearest to [|q|], the larger when two are as near. *)
Definition toFixed1_exact (q : Q) : string :=
  let n := Qfloor (Qabs q * inject_Z 10 + (1 # 2))%Q in
  (match (q ?= 0)%Q with Lt => "-" | _ => EmptyString end)
  ++ Js.of_Z (n / 10) ++ "." ++ Js.of_Z (n mod 10).

(** A world where every request fails at the network level. *)
Definition offline : World :=
  mkWorld (fun _ _ => Throw "fetch failed") (fun _ _ _ _ => Throw "fetch failed")
          (fun _ _ _ => Throw "fetch failed")
          (fun _ _ _ => Throw "fetch failed") (fun _ _ => Throw "fetch failed")
          (fun _ _ => Throw "fetch failed") (fun _ _ _ => Throw "fetch failed")
          (fun _ => Throw "fetch failed") toFixed1_exact.

(** A world where every request is answered with "not found". *)
Definition unavailable : World :=
  mkWorld (fun _ _ => Ok None) (fun _ _ _ _ => Ok None)
          (fun _ _ _ => Ok None) (fun _ _ _ => Ok None) (fun _ _ => Ok None)
          (fun _ _ => Ok None) (fun _ _ _ => Ok None)
          (fun _ => Ok (mkResponse 404)) toFixed1_exact.

Definition team_a : Team := mkTeam "A" ["ann"; "bob"] "x/y" None.
Definition team_b : Team :=
  mkTeam "B" ["cy"] "x/z" (Some "https://example.test/health").

(** Worlds that differ from another in one kind of answer. *)
Definition with_tree (w : World) (tree : option (list TreeEntry)) : World :=
  mkWorld (fun _ _ => Ok tree) (gh_runs w) (gh_jobs w)
          (gh_artifacts w) (gh_packages w) (gh_protection w) (ghRaw w) (fetch w)
          (toFixed1 w).

Definition with_latest_runs (w : World) (runs : option (list Run)) : World :=
  mkWorld (gh_tree w)
          (fun o r st n => match st with
                           | None => Ok runs
                           | Some _ => gh_runs w o r st n
                           end)
          (gh_jobs w)
          (gh_artifacts w) (gh_packages w) (gh_protection w) (ghRaw w) (fetch w)
          (toFixed1 w).

Definition with_success_runs (w : World) (runs : option (list Run)) : World :=
  mkWorld (gh_tree w)
          (fun o r st n => match st with
                           | Some _ => Ok runs
                           | None => gh_runs w o r st n
                           end)
          (gh_jobs w)
          (gh_artifacts w) (gh_packages w) (gh_protection w) (ghRaw w) (fetch w)
          (toFixed1 w).

Definition with_jobs (w : World) (jobs : option (list Job)) : World :=
  mkWorld (gh_tree w) (gh_runs w) (fun _ _ _ => Ok jobs)
          (gh_artifacts w) (gh_packages w) (gh_protection w) (ghRaw w) (fetch w)
          (toFixed1 w).

Definition with_files (w : World) (files : string -> option string) : World :=
  mkWorld (gh_tree w) (gh_runs w) (gh_jobs w)
          (gh_artifacts w) (gh_packages w) (gh_protection w)
          (fun _ _ p => Ok (files p)) (fetch w) (toFixed1 w).

Definition with_fetch (w : World) (answer : res Response) : World :=
  mkWorld (gh_tree w) (gh_runs w) (gh_jobs w)
          (gh_artifacts w) (gh_packages w) (gh_protection w) (ghRaw w)
          (fun _ => answer) (toFixed1 w).

(** A repository whose one workflow file has the given content. *)
Definition ci_tree : list TreeEntry :=
  [mkEntry "README.md"; mkEntry ".github/workflows/ci.yml"].

Definition one_workflow (content : string) : World :=
  with_files (with_tree unavailable (Some ci_tree))
    (fun p => if String.eqb p ".github/workflows/ci.yml" then Some content else None).

(** A repository whose workflow file has the other extension. *)
Definition yaml_tree : list TreeEntry :=
  [mkEntry "README.md"; mkEntry ".github/workflows/ci.yaml";
   mkEntry "tests/test_app.py"].

Definition yaml_only : World :=
  with_files (with_tree unavailable (Some yaml_tree))
    (fun p => if String.eqb p ".github/workflows/ci.yaml"
              then Some "run: pytest && ruff check && docker build ." else None).

(** A green run whose first job with a matching name was skipped. *)
Definition green_run : Run := mkRun 7 (Some "success") "completed" 12 0 90000.

Definition skipped_build_jobs : list Job :=
  [mkJob "deploy" (Some "success"); mkJob "Build docs" (Some "skipped");
   mkJob "test" (Some "success")].

Definition skipped_build : World :=
  with_jobs (with_latest_runs unavailable (Some [green_run])) (Some skipped_build_jobs).

(** A deploy URL that answers with the given status. *)
Definition answering (code : Z) : World :=
  with_fetch unavailable (Ok (mkResponse code)).

(** Two successful runs of 3 minutes 20 seconds and of 2 minutes. *)
Definition two_runs : list Run :=
  [mkRun 9 (Some "success") "completed" 14 1000 201000;
   mkRun 8 (Some "success") "completed" 13 0 120000].

(** Relations and sums used in the statements. *)

(** The answer of the file host with the letter case of the content folded. *)
Definition fold_case (answer : res (option string)) : res (option string) :=
  match answer with
  | Ok (Some c) => Ok (Some (Js.toLowerCase c))
  | other => other
  end.

(** Two worlds that give the same trees, and the same files up to the
    letter case of their contents. *)
Definition same_up_to_case (w1 w2 : World) : Prop :=
  (forall o r, gh_tree w1 o r = gh_tree w2 o r) /\
  (forall o r p, fold_case (ghRaw w1 o r p) = fold_case (ghRaw w2 o r p)).

(** The sum of the durations of a list of runs, in milliseconds. *)
Fixpoint sum_durations (runs : list Run) : Z :=
  match runs with
  | [] => 0
  | r :: rest => (updated_at r - created_at r) + sum_durations rest
  end.

(** No pattern of the list matches the content. *)
Definition clean (content : string) : Prop :=
  forall p, In p Checks.secret_patterns -> Regex.test p content = false.

(** The shapes of text that [no_secrets_in_code] is meant to flag. *)

Definition credential_names : list string :=
  ["secret_key"; "api_key"; "db_password"; "password"].

(** A credential name in any letter case, [=] with optional white space
    around it, and a quoted literal of 6 characters or more. *)
Definition credential_assignment (m : string) : Prop :=
  exists name ws1 ws2 q1 lit q2,
    m = name ++ ws1 ++ "=" ++ ws2 ++ String q1 (lit ++ String q2 EmptyString) /\
    In (Js.toLowerCase name) credential_names /\
    Regex.all_chars Regex.is_space ws1 = true /\
    Regex.all_chars Regex.is_space ws2 = true /\
    Regex.is_quote q1 = true /\ Regex.is_quote q2 = true /\
    Regex.all_chars Regex.is_not_quote lit = true /\
    (6 <= String.length lit)%nat.

(** The API key prefix followed by letters or digits, one at least. *)
Definition api_key (m : string) : Prop :=
  exists c rest,
    m = "sk-proj-" ++ String c rest /\
    Regex.is_alnum c = true /\ Regex.all_chars Regex.is_alnum rest = true.

Definition secret_shaped (m : string) : Prop :=
  credential_assignment m \/ api_key m \/
  Js.toLowerCase m = "super_secret" \/ m = "admin123".

(** What [results[key]] holds after the iteration for [check]. *)
Definition recorded (check : Check) (outcome : res Verdict) : ProbeResult :=
  match outcome with
  | Ok v => mkResult (pass v) (detail v) (points check) (label check) (category check)
  | Throw msg =>
      mkResult false ("Error: " ++ msg) (points check) (label check) (category check)
  end.

(** The points of the checks of a catalogue that pass for a team. *)
Fixpoint awarded (checks : list (string * Check)) (w : World) (t : Team) : Z :=
  match checks with
  | [] => 0
  | (_, c) :: rest =>
      (if passes (run c w (owner_of t) (repo_of t) t) then points c else 0)
      + awarded rest w t
  end.

(** The order of the leaderboard: no later entry has a larger total. *)
Definition not_below (a b : Audit) : Prop := total b <= total a.

Definition has_total (n : Z) (a : Audit) : bool := total a =? n.

(** ** Notions used in the further properties *)

(** A request that returns. *)
Definition answered {A : Type} (x : res A) : Prop := exists v, x = Ok v.

(** Every request about a repository returns. *)
Definition answers (w : World) (o r : string) : Prop :=
  answered (gh_tree w o r) /\
  (forall st n, answered (gh_runs w o r st n)) /\
  (forall i, answered (gh_jobs w o r i)) /\
  (forall i, answered (gh_artifacts w o r i)) /\
  answered (gh_packages w o r) /\
  answered (gh_protection w o r) /\
  (forall p, answered (ghRaw w o r p)).

(** The points of the entries of [results] that passed, and of all. *)
Fixpoint points_passed (o : object ProbeResult) : Z :=
  match o with
  | [] => 0
  | (_, e) :: rest => (if r_pass e then r_points e else 0) + points_passed rest
  end.

Fixpoint points_listed (o : object ProbeResult) : Z :=
  match o with
  | [] => 0
  | (_, e) :: rest => r_points e + points_listed rest
  end.

(** An empty file read as a missing one. *)
Definition blank_as_missing (answer : res (option string)) : res (option string) :=
  match answer with
  | Ok (Some c) => if String.eqb c EmptyString then Ok None else answer
  | other => other
  end.

(** The world where the empty files are missing. *)
Definition without_blank_files (w : World) : World :=
  mkWorld (gh_tree w) (gh_runs w) (gh_jobs w) (gh_artifacts w) (gh_packages w)
          (gh_protection w) (fun o r p => blank_as_missing (ghRaw w o r p))
          (fetch w) (toFixed1 w).

(** The one workflow file of [one_workflow], as a function from paths. *)
Definition only_ci_yml (content : string) (p : string) : option string :=
  if String.eqb p ".github/workflows/ci.yml" then Some content else None.

(** What [multi_env] accepts in a lower-cased workflow file: the key
    [environment:] at the end of a line, the environment [production], the
    environment [dev] with [staging] or [prod], or the words [staging] and
    [prod] anywhere. *)
Definition looks_multi_env (l : string) : Prop :=
  Js.includes l ("environment:" ++ Js.newline) = true \/
  Js.includes l "environment: production" = true \/
  (Js.includes l "environment: dev" = true /\
   (Js.includes l "environment: staging" = true \/
    Js.includes l "environment: prod" = true)) \/
  (Js.includes l "staging" = true /\ Js.includes l "prod" = true).

(** A repository with a test file and a workflow that runs the tests and
    measures the coverage, whose latest run on main is green. *)
Definition tested_tree : list TreeEntry :=
  [mkEntry "app/main.py"; mkEntry "tests/test_main.py";
   mkEntry ".github/workflows/ci.yml"].

Definition tested : World :=
  with_latest_runs
    (with_files (with_tree unavailable (Some tested_tree))
       (only_ci_yml "run: pytest --cov=app"))
    (Some [green_run]).

(** Nothing of the repository can be read: the API and the file host
    answer every request about it with "not found". *)
Definition all_missing (w : World) (o r : string) : Prop :=
  gh_tree w o r = Ok None /\
  (forall st n, gh_runs w o r st n = Ok None) /\
  gh_packages w o r = Ok None /\
  gh_protection w o r = Ok None /\
  (forall p, ghRaw w o r p = Ok None).

(** A world with published container packages where the tree cannot even
    be requested. *)
Definition packages_only : World :=
  mkWorld (fun _ _ => Throw "fetch failed") (fun _ _ _ _ => Ok None)
          (fun _ _ _ => Ok None) (fun _ _ _ => Ok None)
          (fun _ _ => Ok (Some [tt; tt])) (fun _ _ => Ok None)
          (fun _ _ _ => Ok None) (fun _ => Throw "fetch failed") toFixed1_exact.

(** A world where only [renovate.json] exists. *)
Definition renovate_only (p : string) : option string :=
  if String.eqb p "renovate.json" then Some "{}" else None.

(** A repository with two workflow files, the second of which cannot be
    requested. *)
Definition two_workflows_tree : list TreeEntry :=
  [mkEntry ".github/workflows/a.yml"; mkEntry ".github/workflows/b.yml"].

Definition second_unreachable : World :=
  mkWorld (fun _ _ => Ok (Some two_workflows_tree)) (fun _ _ _ _ => Ok None)
          (fun _ _ _ => Ok None) (fun _ _ _ => Ok None) (fun _ _ => Ok None)
          (fun _ _ => Ok None)
          (fun _ _ p => if String.eqb p ".github/workflows/a.yml"
                        then Ok (Some "run: ruff check .")
                        else Throw "fetch failed")
          (fun _ => Throw "fetch failed") toFixed1_exact.

(** Two audits with different totals. *)
Definition audit_of (name : string) (n : Z) : Audit :=
  mkAudit name [] EmptyString None n 130 [].

(** The names that [tests_exist] takes for test files. *)

Definition no_line_break (s : string) : bool :=
  Regex.all_chars
    (fun c => negb (Ascii.eqb c Js.newline_char || Ascii.eqb c (ascii_of_nat 13))) s.

(** [test] in any letter case, then the rest of the line, ending with the
    extension [.py], [.js] or [.ts] in any letter case. *)
Definition test_named (p : string) : Prop :=
  exists pre t mid ext,
    p = pre ++ t ++ mid ++ "." ++ ext /\
    Js.toLowerCase t = "test" /\ no_line_break mid = true /\
    In (Js.toLowerCase ext) ["py"; "js"; "ts"].

(** A path that ends with [.spec.js] or [.spec.ts] in any letter case. *)
Definition spec_named (p : string) : Prop :=
  exists pre s ext,
    p = pre ++ s ++ ext /\
    Js.toLowerCase s = ".spec." /\ In (Js.toLowerCase ext) ["js"; "ts"].

(** * Properties *)

(** ** Strings *)

Lemma append_empty_r (s : string) : s ++ EmptyString = s.
Proof. induction s as [|c r IH]; simpl; [reflexivity | now rewrite IH]. Qed.

Lemma append_assoc (a b c : string) : (a ++ b) ++ c = a ++ b ++ c.
Proof. induction a as [|x r IH]; simpl; [reflexivity | now rewrite IH]. Qed.

Lemma append_empty (a b : string) :
  a ++ b = EmptyString -> a = EmptyString /\ b = EmptyString.
Proof. destruct a; simpl; intros H; [now split | discriminate H]. Qed.

Lemma append_cons (a b : string) (c : ascii) (s : string) :
  a ++ b = String c s ->
  (a = EmptyString /\ b = String c s) \/
  (exists a', a = String c a' /\ s = a' ++ b).
Proof.
  destruct a as [|x a']; simpl; intros H.
  - now left.
  - injection H as -> <-. right. now exists a'.
Qed.

Lemma startsWith_spec (s t : string) :
  Js.startsWith s t = true <-> exists post, s = t ++ post.
Proof.
  revert s. induction t as [|b t' IH]; intros s; destruct s as [|a s']; simpl.
  - split; [intros _; now exists EmptyString | reflexivity].
  - split; [intros _; now exists (String a s') | reflexivity].
  - split; [discriminate | intros [post H]; discriminate H].
  - rewrite andb_true_iff, Ascii.eqb_eq, IH. split.
    + intros [-> [post ->]]. now exists post.
    + intros [post [= -> ->]]. split; [reflexivity | now exists post].
Qed.

Lemma includes_spec (s t : string) :
  Js.includes s t = true <-> exists pre post, s = pre ++ t ++ post.
Proof.
  induction s as [|a s' IH].
  - cbn [Js.includes]. rewrite startsWith_spec. split.
    + intros [post H]. now exists EmptyString, post.
    + intros [pre [post H]]. symmetry in H. apply append_empty in H.
      destruct H as [-> H]. now exists post.
  - cbn [Js.includes]. rewrite orb_true_iff, startsWith_spec, IH. split.
    + intros [[post H]|[pre [post H]]].
      * now exists EmptyString, post.
      * exists (String a pre), post. simpl. now rewrite H.
    + intros [pre [post H]]. destruct pre as [|x pre]; simpl in H.
      * left. now exists post.
      * injection H as -> ->. right. now exists pre, post.
Qed.

Lemma endsWith_spec (s t : string) :
  Js.endsWith s t = true <-> exists pre, s = pre ++ t.
Proof.
  induction s as [|a s' IH]; cbn [Js.endsWith].
  - rewrite String.eqb_eq. split.
    + intros ->. now exists EmptyString.
    + intros [pre H]. symmetry in H. now apply append_empty in H.
  - rewrite orb_true_iff, String.eqb_eq, IH. split.
    + intros [<-|[pre ->]]; [now exists EmptyString | now exists (String a pre)].
    + intros [pre H]. destruct pre as [|x pre]; simpl in H.
      * now left.
      * injection H as -> ->. right. now exists pre.
Qed.

Module RegexFacts.

Import Regex.

(** ** The matcher decides the language *)


Lemma nullable_lang (r : regex) : nullable r = true <-> lang r EmptyString.
Proof.
  split.
  - induction r; simpl; intros H; try discriminate H.
    + constructor.
    + apply andb_true_iff in H. destruct H as [H1 H2].
      change EmptyString with (EmptyString ++ EmptyString). constructor; auto.
    + apply orb_true_iff in H. destruct H as [H|H];
        [apply lang_alt_l | apply lang_alt_r]; auto.
    + constructor.
  - intros H. remember EmptyString as e eqn:E.
    induction H; simpl; try reflexivity; try discriminate E.
    + apply append_empty in E. destruct E as [-> ->]. now rewrite IHlang1, IHlang2.
    + now rewrite IHlang.
    + rewrite IHlang by assumption. apply orb_true_r.
Qed.

Lemma deriv_sound (c : ascii) (r : regex) :
  forall s, lang (deriv c r) s -> lang r (String c s).
Proof.
  induction r; simpl; intros s H.
  - inversion H.
  - inversion H.
  - destruct (b c) eqn:E; inversion H; subst. now constructor.
  - destruct (nullable r1) eqn:En.
    + inversion H; subst.
      * match goal with Hs : lang (Seq _ _) _ |- _ => inversion Hs; subst end.
        change (String c (s1 ++ s2)) with (String c s1 ++ s2). constructor; auto.
      * change (String c s) with (EmptyString ++ String c s).
        constructor; [now apply nullable_lang | auto].
    + inversion H; subst.
      change (String c (s1 ++ s2)) with (String c s1 ++ s2). constructor; auto.
  - inversion H; subst; [apply lang_alt_l | apply lang_alt_r]; auto.
  - inversion H; subst.
    change (String c (s1 ++ s2)) with (String c s1 ++ s2). constructor; auto.
Qed.

Lemma deriv_complete (c : ascii) (r : regex) (s : string) :
  lang r (String c s) -> lang (deriv c r) s.
Proof.
  intros H. remember (String c s) as cs eqn:E. revert s E.
  induction H; intros s0 E; simpl; try discriminate E.
  - injection E as -> <-. rewrite H. constructor.
  - apply append_cons in E. destruct E as [[-> ->]|[a' [-> ->]]].
    + rewrite (proj2 (nullable_lang a) H). apply lang_alt_r. now apply IHlang2.
    + destruct (nullable a).
      * apply lang_alt_l. constructor; [now apply IHlang1 | assumption].
      * constructor; [now apply IHlang1 | assumption].
  - apply lang_alt_l. now apply IHlang.
  - apply lang_alt_r. now apply IHlang.
  - apply append_cons in E. destruct E as [[-> ->]|[a' [-> ->]]].
    + now apply IHlang2.
    + constructor; [now apply IHlang1 | assumption].
Qed.

Theorem matches_lang (r : regex) (s : string) : matches r s = true <-> lang r s.
Proof.
  revert r. induction s as [|c s IH]; intros r; simpl.
  - apply nullable_lang.
  - rewrite IH. split; [apply deriv_sound | apply deriv_complete].
Qed.

(** ** The languages of the building blocks *)

Lemma lang_Seq (a b : regex) (s : string) :
  lang (Seq a b) s <-> exists s1 s2, s = s1 ++ s2 /\ lang a s1 /\ lang b s2.
Proof.
  split.
  - intros H. inversion H; subst. now exists s1, s2.
  - intros (s1 & s2 & -> & H1 & H2). now constructor.
Qed.

Lemma lang_Alt (a b : regex) (s : string) :
  lang (Alt a b) s <-> lang a s \/ lang b s.
Proof.
  split.
  - intros H. inversion H; subst; [now left | now right].
  - intros [H|H]; [now apply lang_alt_l | now apply lang_alt_r].
Qed.

Lemma lang_Eps (s : string) : lang Eps s <-> s = EmptyString.
Proof.
  split; [intros H; now inversion H | intros ->; constructor].
Qed.

Lemma lang_Cls (p : ascii -> bool) (s : string) :
  lang (Cls p) s <-> exists c, s = String c EmptyString /\ p c = true.
Proof.
  split.
  - intros H. inversion H; subst. now exists c.
  - intros (c & -> & H). now constructor.
Qed.

Lemma lang_chr (c : ascii) (s : string) :
  lang (chr c) s <-> s = String c EmptyString.
Proof.
  unfold chr. rewrite lang_Cls. split.
  - intros (x & -> & Hx). apply Ascii.eqb_eq in Hx. now subst.
  - intros ->. exists c. split; [reflexivity | apply Ascii.eqb_refl].
Qed.

Lemma lang_star_cls (p : ascii -> bool) (s : string) :
  lang (Star (Cls p)) s <-> all_chars p s = true.
Proof.
  split.
  - intros H. remember (Star (Cls p)) as r eqn:E.
    induction H; try discriminate E; [reflexivity|].
    injection E as ->. inversion H; subst. simpl.
    rewrite IHlang2 by reflexivity.
    match goal with Hp : p _ = true |- _ => now rewrite Hp end.
  - induction s as [|c s IH]; simpl; intros H.
    + constructor.
    + apply andb_true_iff in H. destruct H as [Hc Hs].
      change (String c s) with (String c EmptyString ++ s).
      constructor; [now constructor | now apply IH].
Qed.

Lemma lang_at_least (n : nat) (p : ascii -> bool) (s : string) :
  lang (at_least n (Cls p)) s <->
  all_chars p s = true /\ (n <= String.length s)%nat.
Proof.
  revert s. induction n as [|n IH]; intros s; cbn [at_least].
  - rewrite lang_star_cls. split; [intros H; split; [exact H | lia] | tauto].
  - rewrite lang_Seq. split.
    + intros (s1 & s2 & -> & H1 & H2). apply lang_Cls in H1.
      destruct H1 as (c & -> & Hc). apply IH in H2. destruct H2 as [H2 Hn].
      simpl. rewrite Hc, H2. split; [reflexivity | lia].
    + intros [H Hn]. destruct s as [|c s]; simpl in Hn; [lia|].
      simpl in H. apply andb_true_iff in H. destruct H as [Hc Hs].
      exists (String c EmptyString), s. split; [reflexivity|].
      split; [now constructor|]. apply IH. split; [exact Hs | lia].
Qed.

Lemma lang_str (t s : string) : lang (str t) s <-> s = t.
Proof.
  revert s. induction t as [|c t IH]; intros s; cbn [str].
  - apply lang_Eps.
  - rewrite lang_Seq. split.
    + intros (s1 & s2 & -> & H1 & H2). apply lang_Cls in H1.
      destruct H1 as (x & -> & Hx). apply Ascii.eqb_eq in Hx. subst x.
      apply IH in H2. now subst.
    + intros ->. exists (String c EmptyString), t. split; [reflexivity|].
      split; [constructor; apply Ascii.eqb_refl | now apply IH].
Qed.

Lemma lang_str_i (t s : string) :
  lang (str_i t) s <-> Js.toLowerCase s = Js.toLowerCase t.
Proof.
  revert s. induction t as [|c t IH]; intros s; cbn [str_i].
  - rewrite lang_Eps. destruct s; simpl; split; (reflexivity || discriminate).
  - rewrite lang_Seq. split.
    + intros (s1 & s2 & -> & H1 & H2). apply lang_Cls in H1.
      destruct H1 as (x & -> & Hx). apply Ascii.eqb_eq in Hx.
      apply IH in H2. simpl. now rewrite Hx, H2.
    + intros H. destruct s as [|x s]; simpl in H; [discriminate H|].
      injection H as Hx Hs.
      exists (String x EmptyString), s. split; [reflexivity|].
      split; [constructor; now apply Ascii.eqb_eq | now apply IH].
Qed.

Lemma lang_star_any (s : string) : lang (Star any) s.
Proof.
  apply lang_star_cls. induction s as [|c s IH]; simpl; [reflexivity | exact IH].
Qed.

(** [test] looks for a substring in the language of the body. *)
Lemma test_spec (p : literal) (s : string) :
  test p s = true <->
  exists pre m post,
    s = pre ++ m ++ post /\ lang (body p) m /\
    (to_end p = true -> post = EmptyString).
Proof.
  unfold test. rewrite matches_lang, lang_Seq. split.
  - intros (pre & rest & -> & _ & H). apply lang_Seq in H.
    destruct H as (m & post & -> & Hm & Hpost).
    exists pre, m, post. split; [reflexivity|]. split; [exact Hm|].
    intros E. rewrite E in Hpost. now apply lang_Eps in Hpost.
  - intros (pre & m & post & -> & Hm & Hend).
    exists pre, (m ++ post). split; [reflexivity|].
    split; [apply lang_star_any|]. apply lang_Seq.
    exists m, post. split; [reflexivity|]. split; [exact Hm|].
    destruct (to_end p); [rewrite Hend by reflexivity; constructor | apply lang_star_any].
Qed.

(** ** What the secret patterns match *)

Lemma credential_pattern_lang (m : string) :
  lang (body Checks.credential_pattern) m <-> credential_assignment m.
Proof.
  unfold Checks.credential_pattern, credential_assignment.
  cbn [body seqs alts].
  split.
  - intros H.
    apply lang_Seq in H. destruct H as (name & m1 & -> & Hname & H).
    apply lang_Seq in H. destruct H as (ws1 & m2 & -> & Hws1 & H).
    apply lang_Seq in H. destruct H as (eq & m3 & -> & Heq & H).
    apply lang_Seq in H. destruct H as (ws2 & m4 & -> & Hws2 & H).
    apply lang_Seq in H. destruct H as (q1 & m5 & -> & Hq1 & H).
    apply lang_Seq in H. destruct H as (lit & q2 & -> & Hlit & Hq2).
    apply lang_star_cls in Hws1, Hws2. apply lang_at_least in Hlit.
    apply lang_chr in Heq. subst eq.
    apply lang_Cls in Hq1, Hq2.
    destruct Hq1 as (c1 & -> & Hc1), Hq2 as (c2 & -> & Hc2), Hlit as [Hlit Hlen].
    exists name, ws1, ws2, c1, lit, c2.
    split; [reflexivity|]. split; [|tauto].
    rewrite !lang_Alt, !lang_str_i in Hname.
    destruct Hname as [H|[H|[H|H]]]; rewrite H; vm_compute; tauto.
  - intros (name & ws1 & ws2 & q1 & lit & q2 & -> & Hname & Hws1 & Hws2 & Hq1 & Hq2 & Hlit & Hlen).
    apply lang_Seq. exists name, (ws1 ++ "=" ++ ws2 ++ String q1 (lit ++ String q2 "")).
    split; [reflexivity|]. split.
    { rewrite !lang_Alt, !lang_str_i.
      destruct Hname as [H|[H|[H|[H|[]]]]]; rewrite <- H;
        [left | right; left | right; right; left | right; right; right];
        reflexivity. }
    apply lang_Seq. exists ws1, ("=" ++ ws2 ++ String q1 (lit ++ String q2 "")).
    split; [reflexivity|]. split; [now apply lang_star_cls|].
    apply lang_Seq. exists "=", (ws2 ++ String q1 (lit ++ String q2 "")).
    split; [reflexivity|]. split; [now apply lang_chr|].
    apply lang_Seq. exists ws2, (String q1 (lit ++ String q2 "")).
    split; [reflexivity|]. split; [now apply lang_star_cls|].
    apply lang_Seq. exists (String q1 EmptyString), (lit ++ String q2 "").
    split; [reflexivity|]. split; [now constructor|].
    apply lang_Seq. exists lit, (String q2 EmptyString).
    split; [reflexivity|]. split; [now apply lang_at_least | now constructor].
Qed.

Lemma api_key_pattern_lang (m : string) :
  lang (body Checks.api_key_pattern) m <-> api_key m.
Proof.
  unfold Checks.api_key_pattern, api_key, plus. cbn [body].
  rewrite lang_Seq. split.
  - intros (pre & tail & -> & Hpre & H). apply lang_str in Hpre. subst pre.
    apply lang_Seq in H. destruct H as (c & rest & -> & Hc & Hrest).
    apply lang_Cls in Hc. destruct Hc as (x & -> & Hx).
    apply lang_star_cls in Hrest. now exists x, rest.
  - intros (c & rest & -> & Hc & Hrest).
    exists "sk-proj-", (String c rest). split; [reflexivity|].
    split; [now apply lang_str|].
    apply lang_Seq. exists (String c EmptyString), rest. split; [reflexivity|].
    split; [now constructor | now apply lang_star_cls].
Qed.

Lemma has_secret_spec (content : string) :
  Checks.has_secret content = true <->
  exists pre m post, content = pre ++ m ++ post /\ secret_shaped m.
Proof.
  unfold Checks.has_secret, Checks.secret_patterns, secret_shaped.
  cbn [existsb]. rewrite !orb_true_iff, !test_spec. split.
  - intros [H|[H|[H|[H|H]]]]; [| | | |discriminate H];
      destruct H as (pre & m & post & -> & Hm & _); exists pre, m, post;
      (split; [reflexivity|]).
    + left. now apply credential_pattern_lang.
    + right. left. now apply api_key_pattern_lang.
    + right. right. left. now apply (lang_str_i "super_secret").
    + right. right. right. now apply (lang_str "admin123").
  - intros (pre & m & post & -> & [H|[H|[H|H]]]).
    + left. exists pre, m, post. split; [reflexivity|].
      split; [now apply credential_pattern_lang | discriminate].
    + right. left. exists pre, m, post. split; [reflexivity|].
      split; [now apply api_key_pattern_lang | discriminate].
    + right. right. left. exists pre, m, post. split; [reflexivity|].
      split; [now apply (lang_str_i "super_secret") | discriminate].
    + right. right. right. left. exists pre, m, post. split; [reflexivity|].
      split; [now apply (lang_str "admin123") | discriminate].
Qed.

End RegexFacts.

(** ** Objects *)

Section Objects.

Context {A : Type}.

Lemma obj_get_set_same (o : object A) (k : string) (v : A) :
  obj_get (obj_set o k v) k = Some v.
Proof.
  induction o as [|[k' v'] rest IH]; simpl.
  - now rewrite String.eqb_refl.
  - destruct (String.eqb k' k) eqn:E; simpl.
    + now rewrite String.eqb_refl.
    + now rewrite E.
Qed.

Lemma obj_get_set_other (o : object A) (k k' : string) (v : A) :
  k <> k' -> obj_get (obj_set o k v) k' = obj_get o k'.
Proof.
  intros Hne. induction o as [|[k0 v0] rest IH]; simpl.
  - destruct (String.eqb k k') eqn:E; [apply String.eqb_eq in E; contradiction | reflexivity].
  - destruct (String.eqb k0 k) eqn:E; simpl.
    + apply String.eqb_eq in E. subst k0.
      destruct (String.eqb k k') eqn:E'; [apply String.eqb_eq in E'; contradiction | reflexivity].
    + now rewrite IH.
Qed.

Lemma keys_obj_set_fresh (o : object A) (k : string) (v : A) :
  ~ In k (keys o) -> keys (obj_set o k v) = (keys o ++ [k])%list.
Proof.
  unfold keys. induction o as [|[k0 v0] rest IH]; simpl; intros Hnot.
  - reflexivity.
  - destruct (String.eqb k0 k) eqn:E.
    + apply String.eqb_eq in E. exfalso. apply Hnot. now left.
    + simpl. f_equal. apply IH. intros Hin. apply Hnot. now right.
Qed.

End Objects.

(** ** The loop of [scoreTeam] *)

Section Loop.

Variables (w : World) (t : Team).

Local Abbreviation step := (score_step w (owner_of t) (repo_of t) t).
Local Abbreviation outcome c := (run c w (owner_of t) (repo_of t) t).

Lemma step_results (acc : Tally) (key : string) (c : Check) :
  tally_results (step acc (key, c))
  = obj_set (tally_results acc) key (recorded c (outcome c)).
Proof.
  unfold score_step, recorded.
  now destruct (run c w (owner_of t) (repo_of t) t).
Qed.

Lemma step_maxTotal (acc : Tally) (key : string) (c : Check) :
  tally_maxTotal (step acc (key, c)) = tally_maxTotal acc + points c.
Proof.
  unfold score_step.
  now destruct (run c w (owner_of t) (repo_of t) t).
Qed.

Lemma step_total (acc : Tally) (key : string) (c : Check) :
  tally_total (step acc (key, c))
  = tally_total acc + (if passes (outcome c) then points c else 0).
Proof.
  unfold score_step, passes.
  destruct (run c w (owner_of t) (repo_of t) t) as [v|msg]; simpl.
  - destruct (pass v); lia.
  - lia.
Qed.

Lemma loop_maxTotal (checks : list (string * Check)) (acc : Tally) :
  tally_maxTotal (fold_left step checks acc) = tally_maxTotal acc + sum_points checks.
Proof.
  revert acc. induction checks as [|[key c] rest IH]; intros acc;
    cbn [fold_left sum_points].
  - lia.
  - rewrite IH, step_maxTotal. lia.
Qed.

Lemma loop_total (checks : list (string * Check)) (acc : Tally) :
  tally_total (fold_left step checks acc) = tally_total acc + awarded checks w t.
Proof.
  revert acc. induction checks as [|[key c] rest IH]; intros acc;
    cbn [fold_left awarded].
  - lia.
  - rewrite IH, step_total. lia.
Qed.

Lemma loop_keys (checks : list (string * Check)) (acc : Tally) :
  NoDup (keys (tally_results acc) ++ map fst checks)%list ->
  keys (tally_results (fold_left step checks acc))
  = (keys (tally_results acc) ++ map fst checks)%list.
Proof.
  revert acc. induction checks as [|[key c] rest IH]; intros acc Hnd;
    cbn [fold_left map fst].
  - now rewrite app_nil_r.
  - cbn [map fst] in Hnd.
    assert (Hfresh : ~ In key (keys (tally_results acc))).
    { intros Hin. apply NoDup_remove_2 in Hnd. apply Hnd.
      apply in_or_app. now left. }
    rewrite IH; rewrite step_results, keys_obj_set_fresh by exact Hfresh.
    + now rewrite <- app_assoc.
    + rewrite <- app_assoc. exact Hnd.
Qed.

Lemma loop_get_untouched (checks : list (string * Check)) (acc : Tally) (key : string) :
  ~ In key (map fst checks) ->
  obj_get (tally_results (fold_left step checks acc)) key
  = obj_get (tally_results acc) key.
Proof.
  revert acc. induction checks as [|[k c] rest IH]; intros acc Hnot;
    cbn [fold_left].
  - reflexivity.
  - rewrite IH by (intros Hin; apply Hnot; now right).
    rewrite step_results. apply obj_get_set_other.
    intros ->. apply Hnot. now left.
Qed.

Lemma loop_get (checks : list (string * Check)) (acc : Tally) (key : string) (c : Check) :
  NoDup (map fst checks) -> In (key, c) checks ->
  obj_get (tally_results (fold_left step checks acc)) key
  = Some (recorded c (outcome c)).
Proof.
  revert acc. induction checks as [|[k c0] rest IH]; intros acc Hnd Hin;
    cbn [fold_left].
  - destruct Hin.
  - cbn [map fst] in Hnd. inversion Hnd as [|? ? Hfresh Hnd']; subst.
    destruct Hin as [Heq|Hin].
    + inversion Heq; subst.
      rewrite loop_get_untouched by exact Hfresh.
      rewrite step_results. apply obj_get_set_same.
    + now apply IH.
Qed.

End Loop.

Lemma reduce_points (checks : list (string * Check)) (s : Z) :
  fold_left (fun s c => s + points (snd c)) checks s = s + sum_points checks.
Proof.
  revert s. induction checks as [|[key c] rest IH]; intros s; simpl.
  - lia.
  - rewrite IH. simpl. lia.
Qed.

Lemma scoreTeamWith_maxTotal (checks : list (string * Check)) (w : World) (t : Team) :
  maxTotal (scoreTeamWith checks w t) = sum_points checks.
Proof.
  unfold scoreTeamWith. simpl. now rewrite loop_maxTotal.
Qed.

Lemma CHECKS_keys_NoDup : NoDup (map fst CHECKS).
Proof.
  simpl.
  repeat (constructor;
          [ simpl; intros H;
            repeat (destruct H as [H|H]; [discriminate H|]); exact H | ]).
  constructor.
Qed.

(** ** Sorting and ranking *)

Lemma insert_perm (a : Audit) (l : list Audit) : Permutation (insert a l) (a :: l).
Proof.
  induction l as [|b rest IH]; simpl.
  - apply Permutation_refl.
  - destruct (by_total_desc a b <=? 0).
    + apply Permutation_refl.
    + eapply perm_trans; [apply perm_skip, IH | apply perm_swap].
Qed.

Lemma sort_perm (l : list Audit) : Permutation (sort l) l.
Proof.
  induction l as [|a rest IH]; simpl.
  - apply perm_nil.
  - eapply perm_trans; [apply insert_perm | now apply perm_skip].
Qed.

Lemma insert_sorted (a : Audit) (l : list Audit) :
  StronglySorted not_below l -> StronglySorted not_below (insert a l).
Proof.
  induction 1 as [|b rest Hs IH Hall]; simpl.
  - repeat constructor.
  - destruct (by_total_desc a b <=? 0) eqn:E.
    + apply Z.leb_le in E. unfold by_total_desc in E.
      constructor; [now constructor|].
      constructor; [unfold not_below; lia|].
      eapply Forall_impl; [|exact Hall].
      unfold not_below. intros c Hc. lia.
    + apply Z.leb_gt in E. unfold by_total_desc in E.
      constructor; [exact IH|].
      eapply Permutation_Forall; [apply Permutation_sym, insert_perm|].
      constructor; [unfold not_below; lia | exact Hall].
Qed.

Lemma sort_sorted (l : list Audit) : StronglySorted not_below (sort l).
Proof.
  induction l as [|a rest IH]; simpl.
  - constructor.
  - now apply insert_sorted.
Qed.

Lemma insert_stable (n : Z) (a : Audit) (l : list Audit) :
  filter (has_total n) (insert a l) = filter (has_total n) (a :: l).
Proof.
  induction l as [|b rest IH]; [reflexivity|].
  simpl insert. destruct (by_total_desc a b <=? 0) eqn:E; [reflexivity|].
  apply Z.leb_gt in E. unfold by_total_desc in E.
  change (filter (has_total n) (b :: insert a rest))
    with (if has_total n b then b :: filter (has_total n) (insert a rest)
          else filter (has_total n) (insert a rest)).
  rewrite IH. simpl. unfold has_total.
  destruct (total a =? n) eqn:Ea, (total b =? n) eqn:Eb; try reflexivity.
  apply Z.eqb_eq in Ea, Eb. lia.
Qed.

Lemma sort_stable (n : Z) (l : list Audit) :
  filter (has_total n) (sort l) = filter (has_total n) l.
Proof.
  induction l as [|a rest IH]; [reflexivity|].
  simpl sort. rewrite insert_stable. simpl. now rewrite IH.
Qed.

Lemma add_rank_score (i : Z) (l : list Audit) : map score (add_rank i l) = l.
Proof.
  revert i. induction l as [|a rest IH]; intros i; simpl; [reflexivity|].
  now rewrite IH.
Qed.

Lemma add_rank_nth (l : list Audit) :
  forall (i : Z) (k : nat) (e : Ranked),
    nth_error (add_rank i l) k = Some e -> rank e = i + Z.of_nat k + 1.
Proof.
  induction l as [|a rest IH]; intros i k e H.
  - destruct k; discriminate H.
  - destruct k as [|k]; simpl in H.
    + inversion H; subst. simpl. lia.
    + apply IH in H. lia.
Qed.

Lemma add_rank_ranks (l : list Audit) (i : Z) :
  map rank (add_rank i l)
  = map (fun k => i + Z.of_nat k) (seq 1 (List.length l)).
Proof.
  revert i. induction l as [|a rest IH]; intros i; [reflexivity|].
  cbn [add_rank map List.length seq rank]. f_equal.
  rewrite IH, <- (seq_shift (List.length rest) 1), map_map.
  apply map_ext. intros k. lia.
Qed.

Lemma sorted_nth (l : list Audit) :
  StronglySorted not_below l ->
  forall (i j : nat) (a b : Audit),
    (i < j)%nat -> nth_error l i = Some a -> nth_error l j = Some b ->
    total b <= total a.
Proof.
  induction 1 as [|x rest Hs IH Hall]; intros i j a b Hlt Ha Hb.
  - destruct i; discriminate Ha.
  - destruct j as [|j]; [lia|]. simpl in Hb.
    destruct i as [|i]; simpl in Ha.
    + inversion Ha; subst.
      rewrite Forall_forall in Hall. apply Hall. eapply nth_error_In; eauto.
    + apply (IH i j a b); [lia | exact Ha | exact Hb].
Qed.

Lemma rank_scores_score (scores : list Audit) :
  map score (rank_scores scores) = sort scores.
Proof. apply add_rank_score. Qed.

Lemma rank_scores_perm (scores : list Audit) :
  Permutation (map score (rank_scores scores)) scores.
Proof. rewrite rank_scores_score. apply sort_perm. Qed.

Lemma rank_scores_length (scores : list Audit) :
  List.length (rank_scores scores) = List.length scores.
Proof.
  rewrite <- (length_map score), rank_scores_score.
  apply Permutation_length, sort_perm.
Qed.

(** ** The document lists the audit of every team *)

Lemma teams_perm (checks : list (string * Check)) (w : World) (now : string)
    (roster : list Team) :
  Permutation (map score (teams (mainWith checks w now roster)))
              (map (scoreTeamWith checks w) roster).
Proof. apply rank_scores_perm. Qed.

Lemma teams_from_roster (checks : list (string * Check)) (w : World) (now : string)
    (roster : list Team) (e : Ranked) :
  In e (teams (mainWith checks w now roster)) ->
  exists t, In t roster /\ score e = scoreTeamWith checks w t.
Proof.
  intros Hin.
  assert (H : In (score e) (map (scoreTeamWith checks w) roster)).
  { apply (Permutation_in _ (teams_perm checks w now roster)).
    apply in_map. exact Hin. }
  apply in_map_iff in H. destruct H as [t [Ht Hin']].
  exists t. split; [exact Hin' | symmetry; exact Ht].
Qed.

Lemma roster_in_teams (checks : list (string * Check)) (w : World) (now : string)
    (roster : list Team) (t : Team) :
  In t roster ->
  exists e, In e (teams (mainWith checks w now roster))
            /\ score e = scoreTeamWith checks w t.
Proof.
  intros Hin.
  assert (H : In (scoreTeamWith checks w t)
                 (map score (teams (mainWith checks w now roster)))).
  { apply (Permutation_in _ (Permutation_sym (teams_perm checks w now roster))).
    apply in_map. exact Hin. }
  apply in_map_iff in H. destruct H as [e [He Hin']].
  exists e. split; [exact Hin' | exact He].
Qed.

Lemma main_length (w : World) (now : string) (roster : list Team) :
  List.length (teams (main w now roster)) = List.length roster.
Proof.
  unfold main, mainWith. cbn [teams].
  now rewrite rank_scores_length, length_map.
Qed.

(** * The claims *)

(** C1. For every catalogue of checks, every world and every team, the
    [maxTotal] of the team's audit is the sum of the points of the whole
    catalogue, whatever the checks return or throw; the document's
    [total_possible] is that same sum, so every entry of the document
    carries it and any two entries agree.  For the catalogue of the
    program the sum is 130. *)
Theorem total_possible_is_registry_sum :
  forall (checks : list (string * Check)) (w : World) (now : string)
         (roster : list Team),
    (forall t, maxTotal (scoreTeamWith checks w t) = sum_points checks) /\
    total_possible (mainWith checks w now roster) = sum_points checks /\
    (forall e, In e (teams (mainWith checks w now roster)) ->
               maxTotal (score e) = total_possible (mainWith checks w now roster)) /\
    (forall e e', In e (teams (mainWith checks w now roster)) ->
                  In e' (teams (mainWith checks w now roster)) ->
                  maxTotal (score e) = maxTotal (score e')) /\
    total_possible (main w now roster) = 130.
Proof.
  intros checks w now roster.
  assert (Hdoc : total_possible (mainWith checks w now roster) = sum_points checks).
  { unfold mainWith. cbn [total_possible]. rewrite reduce_points. lia. }
  assert (Hentry : forall e, In e (teams (mainWith checks w now roster)) ->
                             maxTotal (score e) = sum_points checks).
  { intros e He. apply teams_from_roster in He. destruct He as [t [_ ->]].
    apply scoreTeamWith_maxTotal. }
  split; [|split; [|split; [|split]]].
  - intros t. apply scoreTeamWith_maxTotal.
  - exact Hdoc.
  - intros e He. now rewrite Hdoc, Hentry.
  - intros e e' He He'. now rewrite !Hentry.
  - unfold main, mainWith. cbn [total_possible].
    rewrite reduce_points. reflexivity.
Qed.

(** C2. For every sequence of audits, the ranking stage returns the same
    audits, ordered so that no entry has a smaller total than a later one;
    audits with equal totals keep their input order; the rank of the entry
    at position [k] (from 0) is [k + 1], so the ranks are exactly
    1, 2, ..., N and tied entries get consecutive, distinct ranks. *)
Theorem rank_scores_sorted_stable :
  forall scores : list Audit,
    Permutation (map score (rank_scores scores)) scores /\
    StronglySorted not_below (map score (rank_scores scores)) /\
    (forall (i j : nat) (a b : Ranked),
        (i < j)%nat ->
        nth_error (rank_scores scores) i = Some a ->
        nth_error (rank_scores scores) j = Some b ->
        total (score a) >= total (score b)) /\
    (forall n : Z,
        filter (has_total n) (map score (rank_scores scores))
        = filter (has_total n) scores) /\
    map rank (rank_scores scores) = map Z.of_nat (seq 1 (List.length scores)) /\
    (forall (k : nat) (e : Ranked),
        nth_error (rank_scores scores) k = Some e -> rank e = Z.of_nat k + 1).
Proof.
  intros scores. split; [|split; [|split; [|split; [|split]]]].
  - apply rank_scores_perm.
  - rewrite rank_scores_score. apply sort_sorted.
  - intros i j a b Hlt Ha Hb. apply Z.le_ge.
    apply (sorted_nth (sort scores) (sort_sorted scores) i j); [exact Hlt | |];
      rewrite <- rank_scores_score, nth_error_map.
    + now rewrite Ha.
    + now rewrite Hb.
  - intros n. rewrite rank_scores_score. apply sort_stable.
  - unfold rank_scores. rewrite add_rank_ranks.
    rewrite (Permutation_length (sort_perm scores)).
    apply map_ext. intros k. lia.
  - intros k e H. unfold rank_scores in H. apply add_rank_nth in H. lia.
Qed.

(** C3. For every world and every roster, the document has as many
    entries as the roster has records: its entries are, up to order, the
    audits of the roster's teams, one for each, whatever the checks of a
    team return or throw. *)
Theorem every_team_is_listed :
  forall (w : World) (now : string) (roster : list Team),
    List.length (teams (main w now roster)) = List.length roster /\
    Permutation (map score (teams (main w now roster)))
                (map (scoreTeam w) roster) /\
    (forall t, In t roster ->
       exists e, In e (teams (main w now roster)) /\
                 score e = scoreTeam w t /\
                 team (score e) = t_team t /\ repo (score e) = t_repo t).
Proof.
  intros w now roster. split; [|split].
  - apply main_length.
  - apply teams_perm.
  - intros t Hin. destruct (roster_in_teams CHECKS w now roster t Hin) as [e [He Hs]].
    exists e. split; [exact He|]. split; [exact Hs|]. now rewrite Hs.
Qed.

(** C4, as amended.  When the evaluation of a check of the catalogue throws
    an error with message [msg], the entry recorded for that check is failed,
    has detail ["Error: " ++ msg] and adds nothing to the team's total; the
    other checks are still evaluated: [results] has exactly the keys of the
    catalogue, each once, and each entry records the outcome of its own
    check; and the document still has one entry for every team. *)
Theorem thrown_check_is_recorded_as_failed :
  forall (w : World) (t : Team) (key : string) (c : Check) (msg : string),
    In (key, c) CHECKS ->
    run c w (owner_of t) (repo_of t) t = Throw msg ->
    obj_get (results (scoreTeam w t)) key
    = Some (mkResult false ("Error: " ++ msg) (points c) (label c) (category c)) /\
    keys (results (scoreTeam w t)) = map fst CHECKS /\
    NoDup (keys (results (scoreTeam w t))) /\
    (forall key' c', In (key', c') CHECKS ->
       obj_get (results (scoreTeam w t)) key'
       = Some (recorded c' (run c' w (owner_of t) (repo_of t) t))) /\
    total (scoreTeam w t) = awarded CHECKS w t /\
    (forall now roster,
       List.length (teams (main w now roster)) = List.length roster).
Proof.
  intros w t key c msg Hin Hthrow.
  assert (Hget : forall key' c', In (key', c') CHECKS ->
            obj_get (results (scoreTeam w t)) key'
            = Some (recorded c' (run c' w (owner_of t) (repo_of t) t))).
  { intros key' c' Hin'. unfold scoreTeam, scoreTeamWith. cbn [results].
    apply loop_get; [apply CHECKS_keys_NoDup | exact Hin']. }
  assert (Hkeys : keys (results (scoreTeam w t)) = map fst CHECKS).
  { unfold scoreTeam, scoreTeamWith. cbn [results].
    rewrite loop_keys; [reflexivity | apply CHECKS_keys_NoDup]. }
  split; [|split; [|split; [|split; [|split]]]].
  - rewrite (Hget key c Hin), Hthrow. reflexivity.
  - exact Hkeys.
  - rewrite Hkeys. apply CHECKS_keys_NoDup.
  - exact Hget.
  - unfold scoreTeam, scoreTeamWith. cbn [total]. now rewrite loop_total.
  - intros now roster. apply main_length.
Qed.

(** ** Facts about the building blocks of the checks *)

Lemma is_success_iff (c : option string) :
  is_success c = true <-> c = Some "success".
Proof.
  destruct c as [s|]; simpl.
  - rewrite String.eqb_eq. split; [now intros -> | now intros [= ->]].
  - split; discriminate.
Qed.

Lemma find_first {A : Type} (p : A -> bool) (l : list A) (x : A) :
  find p l = Some x <->
  exists before after,
    l = (before ++ x :: after)%list /\
    Forall (fun y => p y = false) before /\ p x = true.
Proof.
  induction l as [|a rest IH]; simpl.
  - split; [discriminate|]. intros [before [after [H _]]].
    destruct before; discriminate H.
  - destruct (p a) eqn:Ea.
    + split.
      * intros [= ->]. exists [], rest. repeat split; [constructor | exact Ea].
      * intros [before [after [H [Hall Hx]]]].
        destruct before as [|b before]; simpl in H; inversion H; subst.
        -- reflexivity.
        -- inversion Hall; subst. congruence.
    + rewrite IH. split.
      * intros [before [after [H [Hall Hx]]]]. exists (a :: before), after.
        subst. repeat split; [constructor; assumption | exact Hx].
      * intros [before [after [H [Hall Hx]]]].
        destruct before as [|b before]; simpl in H; inversion H; subst.
        -- congruence.
        -- inversion Hall; subst. exists before, after. repeat split; assumption.
Qed.

Lemma toLowerCase_empty (c c' : string) :
  Js.toLowerCase c = Js.toLowerCase c' ->
  String.eqb c EmptyString = String.eqb c' EmptyString.
Proof. destruct c, c'; simpl; intros H; (reflexivity || discriminate H). Qed.

(** The loop reads the same thing from two worlds that agree up to letter
    case when its body looks at the lower-cased content only. *)
Lemma scan_up_to_case {A : Type} (w1 w2 : World) (o r : string)
    (body : string -> string -> option A) (files : list string) :
  (forall p, fold_case (ghRaw w1 o r p) = fold_case (ghRaw w2 o r p)) ->
  (forall f c c', Js.toLowerCase c = Js.toLowerCase c' -> body f c = body f c') ->
  scan w1 o r files body = scan w2 o r files body.
Proof.
  intros Hraw Hbody. induction files as [|f rest IH]; [reflexivity|].
  cbn [scan]. specialize (Hraw f).
  destruct (ghRaw w1 o r f) as [[c|]|m], (ghRaw w2 o r f) as [[c'|]|m'];
    simpl in Hraw; try discriminate Hraw; cbn [bind].
  - injection Hraw as Hc.
    rewrite (toLowerCase_empty c c' Hc), (Hbody f c c' Hc), IH. reflexivity.
  - exact IH.
  - injection Hraw as ->. reflexivity.
Qed.

(** ** The remaining claims *)

(** C5, as amended.  [tests_pass] passes if and only if the latest run on
    main has conclusion ["success"], the jobs of that run can be read, and
    the first job of the list whose lower-cased name contains ["test"],
    ["ci"] or ["build"] has conclusion ["success"].  Jobs after that first
    one are not looked at. *)
Theorem tests_pass_first_matching_job :
  forall (w : World) (o r : string) (t : Team),
    (passes (Checks.tests_pass w o r t) = true <->
     exists last rest jobs before j after,
       gh_runs w o r None 1 = Ok (Some (last :: rest)) /\
       conclusion last = Some "success" /\
       gh_jobs w o r (id last) = Ok (Some jobs) /\
       jobs = (before ++ j :: after)%list /\
       Forall (fun j' => Checks.is_test_job j' = false) before /\
       Checks.is_test_job j = true /\
       job_conclusion j = Some "success") /\
    (forall j, Checks.is_test_job j = true <->
       Js.includes (Js.toLowerCase (job_name j)) "test" = true \/
       Js.includes (Js.toLowerCase (job_name j)) "ci" = true \/
       Js.includes (Js.toLowerCase (job_name j)) "build" = true).
Proof.
  intros w o r t. split.
  - unfold Checks.tests_pass.
    destruct (gh_runs w o r None 1) as [[[|last rest]|]|m] eqn:Eruns; cbn [bind passes pass no].
    1, 3, 4: split; [discriminate | intros (? & ? & ? & ? & ? & ? & H & _); discriminate H].
    destruct (is_success (conclusion last)) eqn:Egreen; cbn [negb passes pass no].
    + apply is_success_iff in Egreen.
      destruct (gh_jobs w o r (id last)) as [[js|]|m] eqn:Ejobs; cbn [bind passes pass no].
      2, 3: split; [discriminate |
                    intros (l & ? & ? & ? & ? & ? & H & _ & H' & _);
                    injection H as <- _; rewrite Ejobs in H'; discriminate H'].
      destruct (find Checks.is_test_job js) as [testJob|] eqn:Efind; cbn [passes pass no].
      * rewrite is_success_iff. split.
        -- intros Hc. apply find_first in Efind.
           destruct Efind as (before & after & Hjs & Hall & Hj).
           exists last, rest, js, before, testJob, after. repeat split; assumption.
        -- intros (l & ? & js' & before & j & after & H & _ & H' & Hjs & Hall & Hj & Hc).
           injection H as <- _. rewrite Ejobs in H'. injection H' as <-.
           assert (Hf : find Checks.is_test_job js = Some j).
           { apply find_first. exists before, after. repeat split; assumption. }
           rewrite Efind in Hf. injection Hf as ->. exact Hc.
      * split; [discriminate|].
        intros (l & ? & js' & before & j & after & H & _ & H' & Hjs & Hall & Hj & Hc).
        injection H as <- _. rewrite Ejobs in H'. injection H' as <-.
        assert (Hf : find Checks.is_test_job js = Some j).
        { apply find_first. exists before, after. repeat split; assumption. }
        rewrite Efind in Hf. discriminate Hf.
    + split; [discriminate|].
      intros (l & ? & ? & ? & ? & ? & H & Hc & _).
      injection H as <- _. apply is_success_iff in Hc. congruence.
  - intros j. unfold Checks.is_test_job. cbv zeta.
    rewrite !orb_true_iff. tauto.
Qed.

(** C6, as amended.  For the lint, security scan, quality gate, auto-deploy
    and multi-environment checks, two repositories with the same tree whose
    files differ only in the letter case of their contents get the same
    verdict, pass and detail alike. *)
Theorem keyword_checks_ignore_case :
  forall (w1 w2 : World),
    same_up_to_case w1 w2 ->
    forall (o r : string) (t : Team),
      Checks.lint_pass w1 o r t = Checks.lint_pass w2 o r t /\
      Checks.security_scan w1 o r t = Checks.security_scan w2 o r t /\
      Checks.quality_gate w1 o r t = Checks.quality_gate w2 o r t /\
      Checks.auto_deploy w1 o r t = Checks.auto_deploy w2 o r t /\
      Checks.multi_env w1 o r t = Checks.multi_env w2 o r t.
Proof.
  intros w1 w2 [Htree Hraw] o r t.
  unfold Checks.lint_pass, Checks.security_scan, Checks.quality_gate,
    Checks.auto_deploy, Checks.multi_env.
  rewrite (Htree o r).
  destruct (gh_tree w2 o r) as [[tree|]|m]; cbn [bind];
    [| repeat split; reflexivity | repeat split; reflexivity].
  split; [|split; [|split; [|split]]];
    (erewrite scan_up_to_case;
     [reflexivity | exact (Hraw o r) |
      intros f c c' Hc; cbv zeta; rewrite Hc; reflexivity]).
Qed.

Lemma truthy_some (url : string) :
  url <> EmptyString -> Js.truthy (Some url) = true.
Proof.
  intros Hne. simpl. destruct (String.eqb url EmptyString) eqn:E; [|reflexivity].
  apply String.eqb_eq in E. contradiction.
Qed.

Lemma ok_iff (resp : Response) :
  ok resp = true <-> 200 <= http_status resp <= 299.
Proof. unfold ok. rewrite andb_true_iff, !Z.leb_le. tauto. Qed.

(** C7, as amended.  When the roster record has no deploy URL (the member
    is missing or empty), [deployed] fails with detail
    ["No deploy_url in teams.json"] in every world, so without consulting
    the URL; otherwise it passes if and only if the request returns a
    response whose status is between 200 and 299: a request that throws
    (network error, abort after the timeout) fails, status 200 passes and
    status 500 fails. *)
Theorem deployed_verdict :
  forall (w : World) (o r : string) (t : Team),
    (t_deploy_url t = None \/ t_deploy_url t = Some EmptyString ->
     forall w', Checks.deployed w' o r t = Ok (no "No deploy_url in teams.json")) /\
    (forall url, t_deploy_url t = Some url -> url <> EmptyString ->
       (passes (Checks.deployed w o r t) = true <->
        exists resp, fetch w url = Ok resp /\ 200 <= http_status resp <= 299) /\
       (fetch w url = Ok (mkResponse 200) -> passes (Checks.deployed w o r t) = true) /\
       (fetch w url = Ok (mkResponse 500) -> passes (Checks.deployed w o r t) = false)).
Proof.
  intros w o r t. split.
  - intros [H|H] w'; unfold Checks.deployed; rewrite H; reflexivity.
  - intros url Hurl Hne.
    assert (Hrun : Checks.deployed w o r t
                   = match fetch w url with
                     | Ok resp => Ok (mkVerdict (ok resp)
                                        (url ++ " → HTTP " ++ Js.of_Z (http_status resp)))
                     | Throw msg => Ok (no (url ++ " → " ++ msg))
                     end).
    { unfold Checks.deployed. rewrite Hurl, (truthy_some url Hne). reflexivity. }
    rewrite Hrun. split; [|split].
    + destruct (fetch w url) as [resp|msg]; cbn [passes pass no].
      * rewrite ok_iff. split.
        -- intros H. now exists resp.
        -- intros [resp' [[= <-] H]]. exact H.
      * split; [discriminate | intros [resp' [H _]]; discriminate H].
    + intros ->. reflexivity.
    + intros ->. reflexivity.
Qed.

Lemma totalMs_from (runs : list Run) (acc : Z) :
  fold_left (fun acc r => acc + (updated_at r - created_at r)) runs acc
  = acc + sum_durations runs.
Proof.
  revert acc. induction runs as [|x rest IH]; intros acc; simpl.
  - lia.
  - rewrite IH. lia.
Qed.

Lemma totalMs_sum (runs : list Run) : Checks.totalMs runs = sum_durations runs.
Proof. unfold Checks.totalMs. now rewrite totalMs_from. Qed.

Lemma Qltb_lt (x y : Q) : Checks.Qltb x y = true <-> (x < y)%Q.
Proof.
  unfold Checks.Qltb. rewrite Qlt_alt.
  destruct (x ?= y)%Q; split; (reflexivity || discriminate).
Qed.

Lemma avgMin_under_3 (runs : list Run) :
  runs <> [] ->
  ((Checks.avgMin runs < inject_Z 3)%Q <->
   sum_durations runs < 3 * 60000 * Z.of_nat (List.length runs)).
Proof.
  intros Hne. unfold Checks.avgMin. rewrite totalMs_sum.
  destruct runs as [|x rest]; [contradiction|].
  set (T := sum_durations (x :: rest)).
  cbn [List.length]. rewrite Nat2Z.inj_succ, <- Zpos_P_of_succ_nat.
  set (p := Pos.of_succ_nat (List.length rest)).
  unfold Qlt, Qdiv, Qmult, Qinv, inject_Z. simpl. lia.
Qed.

(** C8.  When the API answers the query for the successful runs on main
    (at most 3 per page) with a non-empty list, [pipeline_fast] passes if
    and only if the mean of [updated_at - created_at] over the runs of the
    list is below 3 minutes, strictly: the sum of the durations in
    milliseconds is below 180000 times the number of runs, however many
    there are.  When there is no successful run the check returns a failed
    verdict with detail ["No successful runs"]; it does not throw. *)
Theorem pipeline_fast_mean :
  forall (w : World) (o r : string) (t : Team),
    (forall runs, gh_runs w o r (Some "success") 3 = Ok (Some runs) -> runs <> [] ->
       (passes (Checks.pipeline_fast w o r t) = true <->
        (Checks.avgMin runs < inject_Z 3)%Q) /\
       (passes (Checks.pipeline_fast w o r t) = true <->
        sum_durations runs < 3 * 60000 * Z.of_nat (List.length runs)) /\
       (Checks.avgMin runs
        == inject_Z (sum_durations runs) / inject_Z (Z.of_nat (List.length runs))
           / inject_Z 60000)%Q) /\
    (gh_runs w o r (Some "success") 3 = Ok None \/ gh_runs w o r (Some "success") 3 = Ok (Some []) ->
     Checks.pipeline_fast w o r t = Ok (no "No successful runs")).
Proof.
  intros w o r t. split.
  - intros runs Hruns Hne.
    assert (Hp : passes (Checks.pipeline_fast w o r t)
                 = Checks.Qltb (Checks.avgMin runs) (inject_Z 3)).
    { unfold Checks.pipeline_fast. rewrite Hruns.
      destruct runs; [contradiction | reflexivity]. }
    rewrite Hp, Qltb_lt. split; [tauto|]. split.
    + now apply avgMin_under_3.
    + unfold Checks.avgMin. rewrite totalMs_sum. apply Qeq_refl.
  - intros [H|H]; unfold Checks.pipeline_fast; rewrite H; reflexivity.
Qed.

Lemma has_secret_clean (content : string) :
  Checks.has_secret content = false <-> clean content.
Proof.
  unfold Checks.has_secret, clean. split.
  - intros H p Hin. destruct (Regex.test p content) eqn:E; [|reflexivity].
    assert (Ht : existsb (fun p => Regex.test p content) Checks.secret_patterns = true).
    { apply existsb_exists. now exists p. }
    congruence.
  - intros H.
    destruct (existsb (fun p => Regex.test p content) Checks.secret_patterns) eqn:E;
      [|reflexivity].
    apply existsb_exists in E. destruct E as [p [Hin Ht]].
    rewrite (H p Hin) in Ht. discriminate Ht.
Qed.

Lemma empty_has_no_secret : Checks.has_secret EmptyString = false.
Proof. vm_compute. reflexivity. Qed.

(** The loop of [no_secrets_in_code] when every request is answered:
    it falls through exactly when no file read has a secret. *)
Lemma scan_secrets (w : World) (o r : string) (contents : string -> option string)
    (files : list string) :
  (forall f, In f files -> ghRaw w o r f = Ok (contents f)) ->
  exists hit,
    scan w o r files (fun file content =>
        if Checks.has_secret content
        then Some (no ("Secret found in " ++ file)) else None) = Ok hit /\
    ((hit = None /\
      forall f c, In f files -> contents f = Some c -> Checks.has_secret c = false) \/
     (exists f c, hit = Some (no ("Secret found in " ++ f)) /\
                  In f files /\ contents f = Some c /\ Checks.has_secret c = true)).
Proof.
  induction files as [|f rest IH]; intros Hraw.
  - exists None. split; [reflexivity|]. left. split; [reflexivity|]. intros f c [].
  - destruct IH as [hit [Hscan Hhit]].
    { intros f' Hin. apply Hraw. now right. }
    cbn [scan]. rewrite (Hraw f (or_introl eq_refl)). cbn [bind].
    assert (Hskip : forall c, contents f = Some c -> Checks.has_secret c = false ->
              exists hit',
                Ok hit = Ok hit' /\
                ((hit' = None /\
                  forall f' c', In f' (f :: rest) -> contents f' = Some c' ->
                                Checks.has_secret c' = false) \/
                 (exists f' c', hit' = Some (no ("Secret found in " ++ f')) /\
                                In f' (f :: rest) /\ contents f' = Some c' /\
                                Checks.has_secret c' = true))).
    { intros c Hc Hclean. exists hit. split; [reflexivity|].
      destruct Hhit as [[-> Hall]|(f' & c' & -> & Hin & Hc' & Hs)].
      - left. split; [reflexivity|]. intros f' c' [<-|Hin] Hc'.
        + rewrite Hc in Hc'. injection Hc' as <-. exact Hclean.
        + now apply (Hall f' c').
      - right. exists f', c'. repeat split; try assumption. now right. }
    destruct (contents f) as [c|] eqn:Ec.
    + destruct (String.eqb c EmptyString) eqn:Eempty.
      * apply String.eqb_eq in Eempty. subst c. rewrite Hscan.
        apply (Hskip EmptyString eq_refl empty_has_no_secret).
      * destruct (Checks.has_secret c) eqn:Es.
        -- exists (Some (no ("Secret found in " ++ f))). split; [reflexivity|].
           right. exists f, c. repeat split; try assumption. now left.
        -- rewrite Hscan. apply (Hskip c eq_refl Es).
    + rewrite Hscan. exists hit. split; [reflexivity|].
      destruct Hhit as [[-> Hall]|(f' & c' & -> & Hin & Hc' & Hs)].
      * left. split; [reflexivity|]. intros f' c' [<-|Hin] Hc'.
        -- rewrite Ec in Hc'. discriminate Hc'.
        -- now apply (Hall f' c').
      * right. exists f', c'. repeat split; try assumption. now right.
Qed.

(** C9.  When the file host answers the four requests (with a content or
    with none), [no_secrets_in_code] passes if and only if no file of the
    fixed list has a content that one of the fixed patterns matches; in
    particular it passes when the four files are all absent.  A pattern
    matches a content when some part of it is secret-shaped: a credential
    name assigned a quoted literal of 6 characters or more (not one of 5),
    the API key prefix [sk-proj-] followed by a letter or digit, or one of
    the literals [super_secret] and [admin123]. *)
Theorem no_secrets_fail_open :
  forall (w : World) (o r : string) (t : Team) (contents : string -> option string),
    (forall f, In f Checks.secret_files -> ghRaw w o r f = Ok (contents f)) ->
    (passes (Checks.no_secrets_in_code w o r t) = true <->
     forall f c, In f Checks.secret_files -> contents f = Some c -> clean c) /\
    ((forall f, In f Checks.secret_files -> contents f = None) ->
     Checks.no_secrets_in_code w o r t = Ok (yes "No hardcoded secrets detected")) /\
    Checks.secret_files
    = ["main.py"; "app.js"; "database/database.py"; "database/database.js"] /\
    (forall c, clean c <->
       ~ exists pre m post, c = pre ++ m ++ post /\ secret_shaped m) /\
    Checks.has_secret "DB_PASSWORD = 'hunter'" = true /\
    Checks.has_secret "DB_PASSWORD = 'hunte'" = false /\
    Checks.has_secret "key: sk-proj-4" = true /\
    Checks.has_secret "key: sk-proj-" = false /\
    Checks.has_secret "token = Super_Secret" = true /\
    Checks.has_secret "login(admin123)" = true.
Proof.
  intros w o r t contents Hraw.
  destruct (scan_secrets w o r contents Checks.secret_files Hraw) as [hit [Hscan Hhit]].
  assert (Hrun : Checks.no_secrets_in_code w o r t
                 = Ok (or_else hit (yes "No hardcoded secrets detected"))).
  { unfold Checks.no_secrets_in_code. rewrite Hscan. reflexivity. }
  split; [|split; [|split; [reflexivity|split]]].
  - rewrite Hrun.
    destruct Hhit as [[-> Hall]|(f & c & -> & Hin & Hc & Hs)]; cbn [passes or_else pass yes no].
    + split; [|reflexivity]. intros _ f c Hin Hc.
      apply has_secret_clean. now apply (Hall f c).
    + split; [discriminate|]. intros Hall.
      apply (Hall f c Hin), has_secret_clean in Hc. congruence.
  - intros Habsent. rewrite Hrun.
    destruct Hhit as [[-> _]|(f & c & _ & Hin & Hc & _)]; [reflexivity|].
    rewrite (Habsent f Hin) in Hc. discriminate Hc.
  - intros c. rewrite <- has_secret_clean, <- RegexFacts.has_secret_spec.
    destruct (Checks.has_secret c); split; congruence.
  - repeat split; vm_compute; reflexivity.
Qed.

Lemma yaml_is_not_yml (s : string) :
  Js.endsWith s ".yaml" = true -> Js.endsWith s ".yml" = false.
Proof.
  induction s as [|c rest IH]; [discriminate|].
  cbn [Js.endsWith]. intros H. apply orb_true_iff in H.
  apply orb_false_iff. destruct H as [H|H].
  - apply String.eqb_eq in H. injection H as -> ->. split; reflexivity.
  - split; [|now apply IH].
    destruct (String.eqb (String c rest) ".yml") eqn:E; [|reflexivity].
    apply String.eqb_eq in E. injection E as _ ->. discriminate H.
Qed.

Lemma wfFiles_spec (tree : list TreeEntry) (p : string) :
  In p (wfFiles tree) <->
  exists e, In e tree /\ path e = p /\
            Js.startsWith (path e) ".github/workflows/" = true /\
            Js.endsWith (path e) ".yml" = true.
Proof.
  unfold wfFiles. rewrite in_map_iff. split.
  - intros [e [Hp Hin]]. apply filter_In in Hin. destruct Hin as [Hin Hwf].
    unfold is_workflow in Hwf. apply andb_true_iff in Hwf.
    exists e. tauto.
  - intros [e (Hin & Hp & Hs & He)]. exists e. split; [exact Hp|].
    apply filter_In. split; [exact Hin|].
    unfold is_workflow. now rewrite Hs, He.
Qed.

Lemma wfFiles_yaml_only (tree : list TreeEntry) :
  (forall e, In e tree ->
     Js.startsWith (path e) ".github/workflows/" = true ->
     Js.endsWith (path e) ".yaml" = true) ->
  wfFiles tree = [].
Proof.
  intros Hyaml. destruct (wfFiles tree) as [|p rest] eqn:E; [reflexivity|].
  assert (Hin : In p (wfFiles tree)) by (rewrite E; now left).
  apply wfFiles_spec in Hin. destruct Hin as [e (Hin & _ & Hs & He)].
  rewrite (yaml_is_not_yml _ (Hyaml e Hin Hs)) in He. discriminate He.
Qed.

(** C10.  The checks enumerate the workflow files as the tree paths that
    start with [.github/workflows/] and end with [.yml].  So when the tree
    can be read and every path under [.github/workflows/] ends with
    [.yaml], no workflow file is found: [pipeline_exists] fails with
    ["0 workflow(s) found"], and lint, tests-exist, coverage, docker build,
    security scan, auto-deploy and multi-environment fail; the quality gate
    finds no keyword in a workflow and is left with its test on the paths
    of the tree. *)
Theorem yaml_workflows_are_not_counted :
  forall (w : World) (o r : string) (t : Team) (tree : list TreeEntry),
    gh_tree w o r = Ok (Some tree) ->
    (forall e, In e tree ->
       Js.startsWith (path e) ".github/workflows/" = true ->
       Js.endsWith (path e) ".yaml" = true) ->
    (forall p, In p (wfFiles tree) <->
       exists e, In e tree /\ path e = p /\
                 Js.startsWith (path e) ".github/workflows/" = true /\
                 Js.endsWith (path e) ".yml" = true) /\
    wfFiles tree = [] /\
    Checks.pipeline_exists w o r t = Ok (no "0 workflow(s) found") /\
    Checks.lint_pass w o r t = Ok (no "No lint step found in workflows") /\
    Checks.tests_exist w o r t
    = Ok (no (if Nat.eqb (List.length (filter Checks.is_test_file tree)) 0
              then "No test files found"
              else Js.of_nat (List.length (filter Checks.is_test_file tree))
                   ++ " test file(s) but not run in CI")) /\
    Checks.coverage_70 w o r t = Ok (no "No coverage step found in CI") /\
    Checks.docker_builds w o r t = Ok (no "No docker build step in CI") /\
    Checks.security_scan w o r t = Ok (no "No security scan found in workflows") /\
    Checks.quality_gate w o r t
    = Ok (if 0 <? Z.of_nat (List.length (filter Checks.is_sonar_file tree))
          then yes "Sonar config found" else no "No quality gate configured") /\
    Checks.auto_deploy w o r t = Ok (no "No auto-deploy workflow found") /\
    Checks.multi_env w o r t = Ok (no "Single environment or none").
Proof.
  intros w o r t tree Htree Hyaml.
  pose proof (wfFiles_yaml_only tree Hyaml) as Hwf.
  split; [intros p; apply wfFiles_spec|].
  split; [exact Hwf|].
  unfold Checks.pipeline_exists, Checks.lint_pass, Checks.tests_exist,
    Checks.coverage_70, Checks.docker_builds, Checks.security_scan,
    Checks.quality_gate, Checks.auto_deploy, Checks.multi_env.
  rewrite Htree. cbn [bind]. rewrite Hwf. cbn [scan bind or_else].
  repeat (split; [reflexivity|]).
  split; [|split; [reflexivity|]].
  - destruct (Nat.eqb (List.length (filter Checks.is_test_file tree)) 0); reflexivity.
  - repeat (split; [reflexivity|]).
    split; [|split; reflexivity].
    destruct (0 <? Z.of_nat (List.length (filter Checks.is_sonar_file tree))); reflexivity.
Qed.

(** ** The claims at concrete inputs *)

Lemma one_workflow_up_to_case (c c' : string) :
  Js.toLowerCase c = Js.toLowerCase c' ->
  same_up_to_case (one_workflow c) (one_workflow c').
Proof.
  intros Hc. split; [reflexivity|].
  intros o r p. simpl.
  destruct (String.eqb p ".github/workflows/ci.yml"); [|reflexivity].
  simpl. now rewrite Hc.
Qed.

(** C4, the claim as stated fails: the check [pipeline_exists] throws when
    the network is down, and the detail recorded for it is
    ["Error: fetch failed"], not ["internal error: fetch failed"]. *)
Lemma thrown_check_detail_is_not_internal_error :
  Checks.pipeline_exists offline (owner_of team_a) (repo_of team_a) team_a
  = Throw "fetch failed" /\
  option_map r_detail (obj_get (results (scoreTeam offline team_a)) "pipeline_exists")
  = Some "Error: fetch failed" /\
  option_map r_detail (obj_get (results (scoreTeam offline team_a)) "pipeline_exists")
  <> Some ("internal error: " ++ "fetch failed").
Proof.
  split; [reflexivity|]. split; [vm_compute; reflexivity|].
  vm_compute. discriminate.
Qed.

(** C4, the amended claim at the team [team_a] when the network is down. *)
Lemma thrown_check_witness :
  In ("pipeline_exists",
      mkCheck 5 fundamentals "Pipeline exists" Checks.pipeline_exists) CHECKS /\
  Checks.pipeline_exists offline (owner_of team_a) (repo_of team_a) team_a
  = Throw "fetch failed" /\
  obj_get (results (scoreTeam offline team_a)) "pipeline_exists"
  = Some (mkResult false "Error: fetch failed" 5 "Pipeline exists" fundamentals).
Proof.
  split; [left; reflexivity|]. split; [reflexivity|].
  exact (proj1 (thrown_check_is_recorded_as_failed offline team_a
                  "pipeline_exists"
                  (mkCheck 5 fundamentals "Pipeline exists" Checks.pipeline_exists)
                  "fetch failed" (or_introl eq_refl) eq_refl)).
Defined.

(** C5, the claim as stated fails: the latest run is green and its job
    [test] has a matching name and succeeded, yet [tests_pass] fails,
    because the job [Build docs], which comes first, was skipped. *)
Lemma tests_pass_ignores_later_jobs :
  ~ (passes (Checks.tests_pass skipped_build "x" "y" team_a) = true <->
     (exists last rest jobs j,
        gh_runs skipped_build "x" "y" None 1 = Ok (Some (last :: rest)) /\
        conclusion last = Some "success" /\
        gh_jobs skipped_build "x" "y" (id last) = Ok (Some jobs) /\
        In j jobs /\ Checks.is_test_job j = true /\
        job_conclusion j = Some "success")).
Proof.
  intros [_ H].
  assert (Hpass : passes (Checks.tests_pass skipped_build "x" "y" team_a) = true).
  { apply H. exists green_run, [], skipped_build_jobs, (mkJob "test" (Some "success")).
    repeat split; try reflexivity. right. right. left. reflexivity. }
  vm_compute in Hpass. discriminate Hpass.
Qed.

(** C6, the claim as stated fails for the docker build check: the two
    workflow files differ in letter case only, and only the lower-case one
    passes. *)
Lemma docker_builds_is_case_sensitive :
  same_up_to_case (one_workflow "run: Docker Build .")
                  (one_workflow "run: docker build .") /\
  passes (Checks.docker_builds (one_workflow "run: Docker Build .") "x" "y" team_a)
  = false /\
  passes (Checks.docker_builds (one_workflow "run: docker build .") "x" "y" team_a)
  = true.
Proof.
  split; [apply one_workflow_up_to_case; reflexivity|].
  split; vm_compute; reflexivity.
Qed.

(** C6, the amended claim at two workflow files that name the linter in
    different letter case. *)
Lemma keyword_checks_witness :
  same_up_to_case (one_workflow "run: npx ESLint .")
                  (one_workflow "run: npx eslint .") /\
  Checks.lint_pass (one_workflow "run: npx ESLint .") "x" "y" team_a
  = Checks.lint_pass (one_workflow "run: npx eslint .") "x" "y" team_a.
Proof.
  split; [apply one_workflow_up_to_case; reflexivity|].
  exact (proj1 (keyword_checks_ignore_case _ _
                  (one_workflow_up_to_case "run: npx ESLint ." "run: npx eslint ."
                     eq_refl)
                  "x" "y" team_a)).
Defined.

(** C7, the claim as stated fails: for a team without deploy URL the
    detail is not ["no deploy URL provided"]. *)
Lemma deployed_detail_differs :
  t_deploy_url team_a = None /\
  Checks.deployed unavailable "x" "y" team_a <> Ok (no "no deploy URL provided").
Proof. split; [reflexivity|]. vm_compute. discriminate. Qed.

(** C7, the amended claim at a team without URL and at a team whose URL
    answers 200. *)
Lemma deployed_witness :
  Checks.deployed offline "x" "y" team_a = Ok (no "No deploy_url in teams.json") /\
  passes (Checks.deployed (answering 200) "x" "z" team_b) = true.
Proof.
  split.
  - exact (proj1 (deployed_verdict unavailable "x" "y" team_a)
             (or_introl eq_refl) offline).
  - refine (proj1 (proj2 (proj2 (deployed_verdict (answering 200) "x" "z" team_b)
                            "https://example.test/health" eq_refl _)) eq_refl).
    discriminate.
Defined.

(** C8 at two successful runs of 200 s and 120 s: the mean is 160 s. *)
Lemma pipeline_fast_witness :
  gh_runs (with_success_runs unavailable (Some two_runs)) "x" "y" (Some "success") 3
  = Ok (Some two_runs) /\
  sum_durations two_runs = 320000 /\
  passes (Checks.pipeline_fast (with_success_runs unavailable (Some two_runs))
            "x" "y" team_a) = true.
Proof.
  split; [reflexivity|]. split; [reflexivity|].
  refine (proj2 (proj1 (proj2 (proj1
            (pipeline_fast_mean (with_success_runs unavailable (Some two_runs))
               "x" "y" team_a) two_runs eq_refl _))) _).
  - discriminate.
  - vm_compute. reflexivity.
Defined.

(** C9 at a repository where none of the four files exists. *)
Lemma no_secrets_witness :
  (forall f, In f Checks.secret_files -> ghRaw unavailable "x" "y" f = Ok None) /\
  Checks.no_secrets_in_code unavailable "x" "y" team_a
  = Ok (yes "No hardcoded secrets detected").
Proof.
  split; [intros f _; reflexivity|].
  exact (proj1 (proj2 (no_secrets_fail_open unavailable "x" "y" team_a
                         (fun _ => None) (fun f _ => eq_refl)))
           (fun f _ => eq_refl)).
Defined.

(** C10 at a repository whose one workflow file is [ci.yaml]. *)
Lemma yaml_workflows_witness :
  gh_tree yaml_only "x" "y" = Ok (Some yaml_tree) /\
  (forall e, In e yaml_tree ->
     Js.startsWith (path e) ".github/workflows/" = true ->
     Js.endsWith (path e) ".yaml" = true) /\
  Checks.pipeline_exists yaml_only "x" "y" team_a = Ok (no "0 workflow(s) found") /\
  Checks.lint_pass yaml_only "x" "y" team_a
  = Ok (no "No lint step found in workflows").
Proof.
  assert (Hyaml : forall e, In e yaml_tree ->
            Js.startsWith (path e) ".github/workflows/" = true ->
            Js.endsWith (path e) ".yaml" = true).
  { intros e [<-|[<-|[<-|[]]]]; simpl; intros H; (reflexivity || discriminate H). }
  split; [reflexivity|]. split; [exact Hyaml|].
  pose proof (yaml_workflows_are_not_counted yaml_only "x" "y" team_a yaml_tree
                eq_refl Hyaml) as H.
  split; [exact (proj1 (proj2 (proj2 H))) | exact (proj1 (proj2 (proj2 (proj2 H))))].
Defined.

(** * Further properties of the scorer *)

(** ** The totals and the results agree *)

Lemma points_passed_set_fresh (o : object ProbeResult) (k : string) (e : ProbeResult) :
  ~ In k (keys o) ->
  points_passed (obj_set o k e)
  = points_passed o + (if r_pass e then r_points e else 0).
Proof.
  unfold keys. induction o as [|[k0 e0] rest IH]; simpl; intros Hnot.
  - lia.
  - destruct (String.eqb k0 k) eqn:E.
    + apply String.eqb_eq in E. exfalso. apply Hnot. now left.
    + simpl. rewrite IH by (intros Hin; apply Hnot; now right). lia.
Qed.

Lemma points_listed_set_fresh (o : object ProbeResult) (k : string) (e : ProbeResult) :
  ~ In k (keys o) ->
  points_listed (obj_set o k e) = points_listed o + r_points e.
Proof.
  unfold keys. induction o as [|[k0 e0] rest IH]; simpl; intros Hnot.
  - lia.
  - destruct (String.eqb k0 k) eqn:E.
    + apply String.eqb_eq in E. exfalso. apply Hnot. now left.
    + simpl. rewrite IH by (intros Hin; apply Hnot; now right). lia.
Qed.

Lemma recorded_pass (c : Check) (x : res Verdict) :
  r_pass (recorded c x) = passes x /\ r_points (recorded c x) = points c.
Proof. destruct x; split; reflexivity. Qed.

Lemma loop_accounts (w : World) (t : Team) (checks : list (string * Check)) (acc : Tally) :
  NoDup (keys (tally_results acc) ++ map fst checks)%list ->
  tally_total acc = points_passed (tally_results acc) ->
  tally_maxTotal acc = points_listed (tally_results acc) ->
  let final := fold_left (score_step w (owner_of t) (repo_of t) t) checks acc in
  tally_total final = points_passed (tally_results final) /\
  tally_maxTotal final = points_listed (tally_results final).
Proof.
  revert acc. induction checks as [|[key c] rest IH]; intros acc Hnd Ht Hm;
    cbn [fold_left].
  - split; assumption.
  - cbn [map fst] in Hnd.
    assert (Hfresh : ~ In key (keys (tally_results acc))).
    { intros Hin. apply NoDup_remove_2 in Hnd. apply Hnd.
      apply in_or_app. now left. }
    apply IH.
    + rewrite step_results, keys_obj_set_fresh by exact Hfresh.
      rewrite <- app_assoc. exact Hnd.
    + rewrite step_total, step_results, points_passed_set_fresh by exact Hfresh.
      destruct (recorded_pass c (run c w (owner_of t) (repo_of t) t)) as [-> ->].
      lia.
    + rewrite step_maxTotal, step_results, points_listed_set_fresh by exact Hfresh.
      destruct (recorded_pass c (run c w (owner_of t) (repo_of t) t)) as [_ ->].
      lia.
Qed.

Lemma awarded_bounds (checks : list (string * Check)) (w : World) (t : Team) :
  Forall (fun kc => 0 <= points (snd kc)) checks ->
  0 <= awarded checks w t <= sum_points checks.
Proof.
  induction 1 as [|[key c] rest Hc _ IH]; simpl in *.
  - lia.
  - destruct (passes (run c w (owner_of t) (repo_of t) t)); lia.
Qed.

Lemma CHECKS_points_positive : Forall (fun kc => 0 <= points (snd kc)) CHECKS.
Proof. repeat constructor; simpl; lia. Qed.

(** X1.  In every audit the two totals agree with the entries of
    [results]: [total] is the sum of the points of the entries that passed
    and [maxTotal] the sum of the points of all entries, so
    [0 <= total <= maxTotal]. *)
Theorem results_account_for_totals :
  forall (w : World) (t : Team),
    total (scoreTeam w t) = points_passed (results (scoreTeam w t)) /\
    maxTotal (scoreTeam w t) = points_listed (results (scoreTeam w t)) /\
    0 <= total (scoreTeam w t) <= maxTotal (scoreTeam w t).
Proof.
  intros w t.
  destruct (loop_accounts w t CHECKS (mkTally [] 0 0)) as [Ht Hm];
    [apply CHECKS_keys_NoDup | reflexivity | reflexivity |].
  split; [exact Ht|]. split; [exact Hm|].
  unfold scoreTeam, scoreTeamWith. cbn [total maxTotal].
  rewrite loop_total, loop_maxTotal. cbn [tally_total tally_maxTotal].
  pose proof (awarded_bounds CHECKS w t CHECKS_points_positive). lia.
Qed.

(** ** A check throws only when a request throws *)

Lemma scan_answered {A : Type} (w : World) (o r : string) (paths : list string)
    (body : string -> string -> option A) :
  (forall p, answered (ghRaw w o r p)) -> answered (scan w o r paths body).
Proof.
  intros Hraw. induction paths as [|f rest IH]; cbn [scan].
  - now exists None.
  - destruct (Hraw f) as [c ->]. cbn [bind].
    destruct c as [c|]; [|exact IH].
    destruct (String.eqb c EmptyString); [exact IH|].
    destruct (body f c) as [v|]; [now exists (Some v) | exact IH].
Qed.

Ltac answered_step :=
  match goal with
  | |- answered (Ok _) => eexists; reflexivity
  | |- answered (bind ?c _) =>
      let v := fresh "v" in
      let E := fresh "E" in
      assert (answered c) as [v E] by (auto using scan_answered);
      rewrite E; cbn [bind]
  | |- answered (match ?x with _ => _ end) => destruct x
  end.

Lemma deployed_answered (w : World) (o r : string) (t : Team) :
  answered (Checks.deployed w o r t).
Proof.
  unfold Checks.deployed.
  destruct (negb (Js.truthy (t_deploy_url t))); [eexists; reflexivity|].
  destruct (fetch w _); eexists; reflexivity.
Qed.

(** X2.  When every request about the team's repository returns (with a
    value or with [null]), no check of the catalogue throws: each one
    returns a verdict, and that verdict is what [results] records.  The
    check [deployed] returns a verdict in every world, also when the request
    to the deploy URL throws. *)
Theorem checks_throw_only_when_a_request_throws :
  forall (w : World) (t : Team),
    answers w (owner_of t) (repo_of t) ->
    forall (key : string) (c : Check),
      In (key, c) CHECKS ->
      exists v : Verdict,
        run c w (owner_of t) (repo_of t) t = Ok v /\
        obj_get (results (scoreTeam w t)) key
        = Some (mkResult (pass v) (detail v) (points c) (label c) (category c)).
Proof.
  intros w t (Ht & Hr & Hj & Ha & Hp & Hpr & Hraw) key c Hin.
  assert (Hrun : answered (run c w (owner_of t) (repo_of t) t)).
  { simpl in Hin.
    repeat (destruct Hin as [Hin|Hin];
            [injection Hin as <- <-; cbn [run];
             first [ apply deployed_answered
                   | unfold Checks.pipeline_exists, Checks.pipeline_green,
                       Checks.lint_pass, Checks.no_secrets_in_code,
                       Checks.tests_exist, Checks.tests_pass, Checks.coverage_70,
                       Checks.dockerfile_exists, Checks.docker_builds,
                       Checks.security_scan, Checks.ghcr_published,
                       Checks.quality_gate, Checks.branch_protection,
                       Checks.auto_deploy, Checks.multi_env, Checks.pipeline_fast,
                       Checks.dependabot;
                     repeat answered_step ] |]).
    destruct Hin. }
  destruct Hrun as [v Hv]. exists v. split; [exact Hv|].
  unfold scoreTeam, scoreTeamWith. cbn [results].
  rewrite (loop_get w t CHECKS _ key c CHECKS_keys_NoDup Hin), Hv. reflexivity.
Qed.

Lemma checks_throw_witness :
  answers unavailable (owner_of team_a) (repo_of team_a) /\
  exists v : Verdict,
    Checks.lint_pass unavailable (owner_of team_a) (repo_of team_a) team_a = Ok v /\
    obj_get (results (scoreTeam unavailable team_a)) "lint_pass"
    = Some (mkResult (pass v) (detail v) 5 "Lint step in pipeline" fundamentals).
Proof.
  assert (H : answers unavailable (owner_of team_a) (repo_of team_a)).
  { repeat split; intros; eexists; reflexivity. }
  split; [exact H|].
  exact (checks_throw_only_when_a_request_throws unavailable team_a H
           "lint_pass"
           (mkCheck 5 fundamentals "Lint step in pipeline" Checks.lint_pass)
           (or_intror (or_intror (or_introl eq_refl)))).
Defined.

(** ** An empty file counts as a missing file *)

Lemma scoreTeamWith_ext (checks : list (string * Check)) (w1 w2 : World) (t : Team) :
  (forall key c, In (key, c) checks ->
     run c w1 (owner_of t) (repo_of t) t = run c w2 (owner_of t) (repo_of t) t) ->
  scoreTeamWith checks w1 t = scoreTeamWith checks w2 t.
Proof.
  intros H. unfold scoreTeamWith.
  assert (Hfold : forall acc,
            fold_left (score_step w1 (owner_of t) (repo_of t) t) checks acc
            = fold_left (score_step w2 (owner_of t) (repo_of t) t) checks acc).
  { induction checks as [|[key c] rest IH]; intros acc; cbn [fold_left].
    - reflexivity.
    - rewrite IH by (intros k c' Hin; apply (H k c'); now right).
      f_equal. unfold score_step. now rewrite (H key c (or_introl eq_refl)). }
  now rewrite Hfold.
Qed.

Lemma scan_without_blank {A : Type} (w : World) (o r : string) (paths : list string)
    (body : string -> string -> option A) :
  scan (without_blank_files w) o r paths body = scan w o r paths body.
Proof.
  induction paths as [|f rest IH]; cbn [scan]; [reflexivity|].
  cbn [ghRaw without_blank_files].
  destruct (ghRaw w o r f) as [[c|]|m]; cbn [blank_as_missing bind];
    [|exact IH|reflexivity].
  destruct (String.eqb c EmptyString) eqn:E; cbn [bind]; [exact IH|].
  rewrite E, IH. reflexivity.
Qed.

Ltac same_without_blank :=
  repeat match goal with
         | |- context [scan (without_blank_files ?w) ?o ?r ?p ?b] =>
             rewrite (scan_without_blank w o r p b)
         | |- context [bind ?c _] => destruct c as [?|?]; cbn [bind]
         | |- context [match ?x with _ => _ end] => destruct x
         end;
  reflexivity.

Lemma run_without_blank (w : World) (o r : string) (t : Team) (key : string) (c : Check) :
  In (key, c) CHECKS -> run c (without_blank_files w) o r t = run c w o r t.
Proof.
  intros Hin. simpl in Hin.
  repeat (destruct Hin as [Hin|Hin];
          [injection Hin as <- <-; cbn [run];
           first
             [ reflexivity
             | unfold Checks.dockerfile_exists, Checks.dependabot;
               cbn [ghRaw without_blank_files];
               repeat match goal with
                      | |- context [blank_as_missing (ghRaw w o r ?p)] =>
                          let E := fresh "E" in
                          destruct (ghRaw w o r p) as [[[|? ?]|]|?] eqn:E;
                          cbn [blank_as_missing String.eqb bind Js.truthy negb]
                      end;
               reflexivity
             | unfold Checks.lint_pass, Checks.no_secrets_in_code,
                 Checks.tests_exist, Checks.coverage_70, Checks.docker_builds,
                 Checks.security_scan, Checks.ghcr_published, Checks.quality_gate,
                 Checks.auto_deploy, Checks.multi_env;
               cbn [gh_tree gh_runs gh_artifacts gh_packages without_blank_files];
               same_without_blank ] |]).
  destruct Hin.
Qed.

(** X3.  A file whose content is empty is treated as a file that does not
    exist: replacing every empty file of a world by a missing one changes
    nothing in the audit of any team. *)
Theorem empty_file_counts_as_missing :
  forall (w : World) (t : Team),
    scoreTeam (without_blank_files w) t = scoreTeam w t.
Proof.
  intros w t. apply scoreTeamWith_ext.
  intros key c Hin. exact (run_without_blank w _ _ t key c Hin).
Qed.

(** ** What the checks on workflow files look for *)

Lemma includes_trans (s t u : string) :
  Js.includes s t = true -> Js.includes t u = true -> Js.includes s u = true.
Proof.
  rewrite !includes_spec.
  intros (pre & post & ->) (pre' & post' & ->).
  exists (pre ++ pre'), (post' ++ post).
  now rewrite !append_assoc.
Qed.

Lemma includes_nonempty (c k : string) :
  Js.includes c k = true -> k <> EmptyString -> c <> EmptyString.
Proof.
  intros H Hk ->. destruct k; [now apply Hk | discriminate H].
Qed.

Lemma toLowerCase_nonempty (c : string) :
  Js.toLowerCase c <> EmptyString -> c <> EmptyString.
Proof. intros H ->. now apply H. Qed.

Lemma any_of_iff (s : string) (keywords : list string) :
  any_of s keywords = true <-> exists k, In k keywords /\ Js.includes s k = true.
Proof. unfold any_of. apply existsb_exists. Qed.

(** The loop when the requests for the files return: it stops with the
    result of its body for some file that has a content, or goes through
    all of them. *)
Lemma scan_decides {A : Type} (w : World) (o r : string)
    (files : string -> option string) (paths : list string)
    (body : string -> string -> option A) :
  (forall f, In f paths -> ghRaw w o r f = Ok (files f)) ->
  (exists f c v,
      scan w o r paths body = Ok (Some v) /\
      In f paths /\ files f = Some c /\ c <> EmptyString /\ body f c = Some v) \/
  (scan w o r paths body = Ok None /\
   forall f c, In f paths -> files f = Some c -> c <> EmptyString -> body f c = None).
Proof.
  induction paths as [|f rest IH]; intros Hraw.
  - right. split; [reflexivity|]. intros f c [].
  - cbn [scan]. rewrite (Hraw f (or_introl eq_refl)). cbn [bind].
    assert (Hrest : forall f', In f' rest -> ghRaw w o r f' = Ok (files f'))
      by (intros f' Hin; apply Hraw; now right).
    specialize (IH Hrest).
    assert (Hskip : (forall c, files f = Some c -> c <> EmptyString -> body f c = None) ->
              (exists f' c v,
                  scan w o r rest body = Ok (Some v) /\
                  In f' (f :: rest) /\ files f' = Some c /\ c <> EmptyString /\
                  body f' c = Some v) \/
              (scan w o r rest body = Ok None /\
               forall f' c, In f' (f :: rest) -> files f' = Some c ->
                            c <> EmptyString -> body f' c = None)).
    { intros Hmiss. destruct IH as [(f' & c & v & Hs & Hin & Hc & Hne & Hb)|[Hs Hall]].
      - left. exists f', c, v. repeat split; try assumption. now right.
      - right. split; [exact Hs|]. intros f' c [<-|Hin] Hc Hne.
        + now apply Hmiss.
        + now apply (Hall f' c). }
    destruct (files f) as [c|] eqn:Ec.
    + destruct (String.eqb c EmptyString) eqn:Ee.
      * apply String.eqb_eq in Ee. subst c. apply Hskip.
        intros c [= <-] Hne. now contradiction Hne.
      * apply String.eqb_neq in Ee. destruct (body f c) as [v|] eqn:Eb.
        -- left. exists f, c, v. repeat split; try assumption; [now left].
        -- apply Hskip. intros c' [= <-] _. exact Eb.
    + apply Hskip. intros c [=].
Qed.

(** A check that passes at the first file whose content satisfies [cond]. *)
Lemma scan_passes (w : World) (o r : string) (files : string -> option string)
    (paths : list string) (cond : string -> bool)
    (found : string -> string -> string) (missing : string) :
  (forall f, In f paths -> ghRaw w o r f = Ok (files f)) ->
  cond EmptyString = false ->
  (passes (hit <- scan w o r paths (fun wf content =>
                    if cond content then Some (yes (found wf content)) else None) ;;
           Ok (or_else hit (no missing))) = true <->
   exists f c, In f paths /\ files f = Some c /\ cond c = true).
Proof.
  intros Hraw Hempty.
  destruct (scan_decides w o r files paths
              (fun wf content =>
                 if cond content then Some (yes (found wf content)) else None) Hraw)
    as [(f & c & v & -> & Hin & Hc & Hne & Hb)|[-> Hall]]; cbn [bind or_else passes].
  - destruct (cond c) eqn:E; [|discriminate Hb]. injection Hb as <-.
    split; [|reflexivity]. intros _. now exists f, c.
  - split; [discriminate|]. intros (f & c & Hin & Hc & Hcond).
    assert (Hne : c <> EmptyString) by (intros ->; congruence).
    specialize (Hall f c Hin Hc Hne). cbv beta in Hall.
    rewrite Hcond in Hall. discriminate Hall.
Qed.

(** X4.  When the tree and the workflow files of a repository can be read,
    [lint_pass] passes if and only if the content of some workflow file
    contains, in any letter case, one of [lint], [ruff], [flake8] and
    [prettier]; the keywords [eslint] and [pylint] of the source add
    nothing, since they contain [lint]. *)
Theorem lint_pass_iff :
  forall (w : World) (o r : string) (t : Team) (tree : list TreeEntry)
         (files : string -> option string),
    gh_tree w o r = Ok (Some tree) ->
    (forall f, In f (wfFiles tree) -> ghRaw w o r f = Ok (files f)) ->
    (passes (Checks.lint_pass w o r t) = true <->
     exists f c k,
       In f (wfFiles tree) /\ files f = Some c /\
       In k ["lint"; "ruff"; "flake8"; "prettier"] /\
       Js.includes (Js.toLowerCase c) k = true).
Proof.
  intros w o r t tree files Htree Hraw.
  unfold Checks.lint_pass. rewrite Htree. cbn [bind].
  rewrite (scan_passes w o r files (wfFiles tree)
             (fun content => any_of (Js.toLowerCase content) Checks.lint_keywords)
             (fun wf _ => "Lint found in " ++ wf) _ Hraw eq_refl).
  split.
  - intros (f & c & Hin & Hc & Hany). apply any_of_iff in Hany.
    destruct Hany as (k & Hk & Hinc). simpl in Hk.
    destruct Hk as [<-|[<-|[<-|[<-|[<-|[<-|[]]]]]]].
    + exists f, c, "lint". simpl. tauto.
    + exists f, c, "ruff". simpl. tauto.
    + exists f, c, "flake8". simpl. tauto.
    + exists f, c, "lint". split; [exact Hin|]. split; [exact Hc|].
      split; [simpl; tauto|]. now apply (includes_trans _ "pylint").
    + exists f, c, "lint". split; [exact Hin|]. split; [exact Hc|].
      split; [simpl; tauto|]. now apply (includes_trans _ "eslint").
    + exists f, c, "prettier". simpl. tauto.
  - intros (f & c & k & Hin & Hc & Hk & Hinc). exists f, c.
    split; [exact Hin|]. split; [exact Hc|]. apply any_of_iff. exists k.
    split; [|exact Hinc]. simpl in Hk. simpl. tauto.
Qed.

Lemma lint_pass_witness :
  gh_tree (one_workflow "run: npx ESLint .") "x" "y" = Ok (Some ci_tree) /\
  (forall f, In f (wfFiles ci_tree) ->
     ghRaw (one_workflow "run: npx ESLint .") "x" "y" f
     = Ok (only_ci_yml "run: npx ESLint ." f)) /\
  passes (Checks.lint_pass (one_workflow "run: npx ESLint .") "x" "y" team_a) = true.
Proof.
  split; [reflexivity|]. split; [intros f _; reflexivity|].
  apply (proj2 (lint_pass_iff (one_workflow "run: npx ESLint .") "x" "y" team_a
                  ci_tree (only_ci_yml "run: npx ESLint .") eq_refl
                  (fun f _ => eq_refl))).
  exists ".github/workflows/ci.yml", "run: npx ESLint .", "lint".
  split; [left; reflexivity|]. split; [reflexivity|].
  split; [left; reflexivity | reflexivity].
Defined.

Lemma filter_found {A : Type} (p : A -> bool) (l : list A) :
  (0 <? Z.of_nat (List.length (filter p l))) = true <->
  exists k, In k l /\ p k = true.
Proof.
  rewrite Z.ltb_lt. split.
  - intros H. destruct (filter p l) as [|k rest] eqn:E; [simpl in H; lia|].
    assert (Hin : In k (filter p l)) by (rewrite E; now left).
    apply filter_In in Hin. now exists k.
  - intros (k & Hin & Hp).
    assert (Hk : In k (filter p l)) by (apply filter_In; now split).
    destruct (filter p l); [destruct Hk | simpl; lia].
Qed.

(** X5.  When the tree and the workflow files can be read, [docker_builds]
    passes if and only if some workflow file contains both [docker] and
    [build], in lower case as written. *)
Theorem docker_builds_iff :
  forall (w : World) (o r : string) (t : Team) (tree : list TreeEntry)
         (files : string -> option string),
    gh_tree w o r = Ok (Some tree) ->
    (forall f, In f (wfFiles tree) -> ghRaw w o r f = Ok (files f)) ->
    (passes (Checks.docker_builds w o r t) = true <->
     exists f c,
       In f (wfFiles tree) /\ files f = Some c /\
       Js.includes c "docker" = true /\ Js.includes c "build" = true).
Proof.
  intros w o r t tree files Htree Hraw.
  unfold Checks.docker_builds. rewrite Htree. cbn [bind].
  rewrite (scan_passes w o r files (wfFiles tree)
             (fun content =>
                (Js.includes content "docker"
                 && (Js.includes content "build" || Js.includes content "build-push"))%bool)
             (fun wf _ => "Docker build in " ++ wf) _ Hraw eq_refl).
  split.
  - intros (f & c & Hin & Hc & Hcond). exists f, c.
    apply andb_true_iff in Hcond. destruct Hcond as [Hd Hb].
    repeat split; try assumption.
    apply orb_true_iff in Hb. destruct Hb as [Hb|Hb]; [exact Hb|].
    now apply (includes_trans _ "build-push").
  - intros (f & c & Hin & Hc & Hd & Hb). exists f, c.
    repeat split; try assumption. now rewrite Hd, Hb.
Qed.

Lemma docker_builds_witness :
  gh_tree (one_workflow "run: docker build .") "x" "y" = Ok (Some ci_tree) /\
  (forall f, In f (wfFiles ci_tree) ->
     ghRaw (one_workflow "run: docker build .") "x" "y" f
     = Ok (only_ci_yml "run: docker build ." f)) /\
  passes (Checks.docker_builds (one_workflow "run: docker build .") "x" "y" team_a)
  = true.
Proof.
  split; [reflexivity|]. split; [intros f _; reflexivity|].
  apply (proj2 (docker_builds_iff (one_workflow "run: docker build .") "x" "y"
                  team_a ci_tree (only_ci_yml "run: docker build .") eq_refl
                  (fun f _ => eq_refl))).
  exists ".github/workflows/ci.yml", "run: docker build .".
  split; [left; reflexivity|]. split; [reflexivity|]. split; reflexivity.
Defined.

(** X6.  When the tree and the workflow files can be read, [security_scan]
    passes if and only if some workflow file contains, in any letter case,
    one of the ten tool names of its keyword list. *)
Theorem security_scan_iff :
  forall (w : World) (o r : string) (t : Team) (tree : list TreeEntry)
         (files : string -> option string),
    gh_tree w o r = Ok (Some tree) ->
    (forall f, In f (wfFiles tree) -> ghRaw w o r f = Ok (files f)) ->
    (passes (Checks.security_scan w o r t) = true <->
     exists f c k,
       In f (wfFiles tree) /\ files f = Some c /\
       In k ["trivy"; "bandit"; "snyk"; "codeql"; "npm audit"; "pip-audit";
             "safety"; "gitleaks"; "semgrep"; "grype"] /\
       Js.includes (Js.toLowerCase c) k = true).
Proof.
  intros w o r t tree files Htree Hraw.
  unfold Checks.security_scan. rewrite Htree. cbn [bind].
  rewrite (scan_passes w o r files (wfFiles tree)
             (fun content =>
                0 <? Z.of_nat (List.length
                                 (filter (Js.includes (Js.toLowerCase content))
                                         Checks.security_keywords)))
             (fun wf content =>
                "Found: "
                ++ Js.join ", " (filter (Js.includes (Js.toLowerCase content))
                                        Checks.security_keywords)
                ++ " in " ++ wf) _ Hraw eq_refl).
  split.
  - intros (f & c & Hin & Hc & Hcond). apply filter_found in Hcond.
    destruct Hcond as (k & Hk & Hinc). now exists f, c, k.
  - intros (f & c & k & Hin & Hc & Hk & Hinc). exists f, c.
    split; [exact Hin|]. split; [exact Hc|]. apply filter_found. now exists k.
Qed.

Lemma security_scan_witness :
  gh_tree (one_workflow "uses: aquasecurity/Trivy-action") "x" "y"
  = Ok (Some ci_tree) /\
  (forall f, In f (wfFiles ci_tree) ->
     ghRaw (one_workflow "uses: aquasecurity/Trivy-action") "x" "y" f
     = Ok (only_ci_yml "uses: aquasecurity/Trivy-action" f)) /\
  passes (Checks.security_scan (one_workflow "uses: aquasecurity/Trivy-action")
            "x" "y" team_a) = true.
Proof.
  split; [reflexivity|]. split; [intros f _; reflexivity|].
  apply (proj2 (security_scan_iff (one_workflow "uses: aquasecurity/Trivy-action")
                  "x" "y" team_a ci_tree
                  (only_ci_yml "uses: aquasecurity/Trivy-action") eq_refl
                  (fun f _ => eq_refl))).
  exists ".github/workflows/ci.yml", "uses: aquasecurity/Trivy-action", "trivy".
  split; [left; reflexivity|]. split; [reflexivity|].
  split; [left; reflexivity | reflexivity].
Defined.

(** X7.  When the tree and the workflow files can be read, [auto_deploy]
    passes if and only if one workflow file contains, in any letter case,
    one of [deploy], [render], [fly.io] and [railway], and also [push], and
    also [main]; the three need not be related in the file. *)
Theorem auto_deploy_iff :
  forall (w : World) (o r : string) (t : Team) (tree : list TreeEntry)
         (files : string -> option string),
    gh_tree w o r = Ok (Some tree) ->
    (forall f, In f (wfFiles tree) -> ghRaw w o r f = Ok (files f)) ->
    (passes (Checks.auto_deploy w o r t) = true <->
     exists f c k,
       In f (wfFiles tree) /\ files f = Some c /\
       In k ["deploy"; "render"; "fly.io"; "railway"] /\
       Js.includes (Js.toLowerCase c) k = true /\
       Js.includes (Js.toLowerCase c) "push" = true /\
       Js.includes (Js.toLowerCase c) "main" = true).
Proof.
  intros w o r t tree files Htree Hraw.
  unfold Checks.auto_deploy. rewrite Htree. cbn [bind].
  rewrite (scan_passes w o r files (wfFiles tree)
             (fun content =>
                (any_of (Js.toLowerCase content) Checks.deploy_keywords
                 && (Js.includes (Js.toLowerCase content) "push"
                     && Js.includes (Js.toLowerCase content) "main"))%bool)
             (fun wf _ => "Deploy on push to main in " ++ wf) _ Hraw eq_refl).
  split.
  - intros (f & c & Hin & Hc & Hcond).
    apply andb_true_iff in Hcond. destruct Hcond as [Hany Hpm].
    apply andb_true_iff in Hpm. destruct Hpm as [Hp Hm].
    apply any_of_iff in Hany. destruct Hany as (k & Hk & Hinc).
    exists f, c, k. repeat split; assumption.
  - intros (f & c & k & Hin & Hc & Hk & Hinc & Hp & Hm). exists f, c.
    split; [exact Hin|]. split; [exact Hc|].
    rewrite Hp, Hm, andb_true_r. apply any_of_iff. now exists k.
Qed.

Lemma auto_deploy_witness :
  gh_tree (one_workflow "on: push # Deploy docs, see main page") "x" "y"
  = Ok (Some ci_tree) /\
  (forall f, In f (wfFiles ci_tree) ->
     ghRaw (one_workflow "on: push # Deploy docs, see main page") "x" "y" f
     = Ok (only_ci_yml "on: push # Deploy docs, see main page" f)) /\
  passes (Checks.auto_deploy (one_workflow "on: push # Deploy docs, see main page")
            "x" "y" team_a) = true.
Proof.
  split; [reflexivity|]. split; [intros f _; reflexivity|].
  apply (proj2 (auto_deploy_iff (one_workflow "on: push # Deploy docs, see main page")
                  "x" "y" team_a ci_tree
                  (only_ci_yml "on: push # Deploy docs, see main page") eq_refl
                  (fun f _ => eq_refl))).
  exists ".github/workflows/ci.yml", "on: push # Deploy docs, see main page", "deploy".
  split; [left; reflexivity|]. split; [reflexivity|].
  split; [left; reflexivity|]. repeat split; reflexivity.
Defined.

Lemma multi_env_condition (l : string) :
  ((2 <=? Z.of_nat
            (List.length
               (filter (fun e =>
                          (Js.includes l ("environment: " ++ e)
                           || Js.includes l ("environment:" ++ Js.newline))%bool)
                       Checks.env_names)))
   || (Js.includes l "staging" && Js.includes l "prod"))%bool = true <->
  looks_multi_env l.
Proof.
  unfold looks_multi_env, Checks.env_names.
  pose proof (fun H => includes_trans l "environment: production"
                         "environment: prod" H eq_refl) as Hpr.
  pose proof (fun H => includes_trans l "environment: staging" "staging" H eq_refl)
    as Hs.
  pose proof (fun H => includes_trans l "environment: prod" "prod" H eq_refl) as Hp.
  set (N := Js.includes l ("environment:" ++ Js.newline)).
  cbn [filter append].
  destruct N;
    destruct (Js.includes l "environment: staging");
    destruct (Js.includes l "environment: production");
    destruct (Js.includes l "environment: prod");
    destruct (Js.includes l "environment: dev");
    destruct (Js.includes l "staging");
    destruct (Js.includes l "prod");
    cbn; try (specialize (Hpr eq_refl)); try (specialize (Hs eq_refl));
    try (specialize (Hp eq_refl)); try discriminate;
    intuition (try discriminate; try reflexivity).
Qed.

(** X8.  When the tree and the workflow files can be read, [multi_env]
    passes if and only if the lower-cased content of some workflow file has
    the key [environment:] at the end of a line, or names the environment
    [production], or names [dev] together with [staging] or [prod], or
    contains the words [staging] and [prod] anywhere.  So one environment
    named [production] is enough. *)
Theorem multi_env_iff :
  forall (w : World) (o r : string) (t : Team) (tree : list TreeEntry)
         (files : string -> option string),
    gh_tree w o r = Ok (Some tree) ->
    (forall f, In f (wfFiles tree) -> ghRaw w o r f = Ok (files f)) ->
    (passes (Checks.multi_env w o r t) = true <->
     exists f c,
       In f (wfFiles tree) /\ files f = Some c /\
       looks_multi_env (Js.toLowerCase c)).
Proof.
  intros w o r t tree files Htree Hraw.
  unfold Checks.multi_env. rewrite Htree. cbn [bind].
  rewrite (scan_passes w o r files (wfFiles tree)
             (fun content =>
                ((2 <=? Z.of_nat
                          (List.length
                             (filter (fun e =>
                                        (Js.includes (Js.toLowerCase content)
                                                     ("environment: " ++ e)
                                         || Js.includes (Js.toLowerCase content)
                                                        ("environment:" ++ Js.newline))%bool)
                                     Checks.env_names)))
                 || (Js.includes (Js.toLowerCase content) "staging"
                     && Js.includes (Js.toLowerCase content) "prod"))%bool)
             (fun _ _ => "Multiple environments detected") _ Hraw eq_refl).
  split.
  - intros (f & c & Hin & Hc & Hcond). exists f, c.
    split; [exact Hin|]. split; [exact Hc|]. now apply multi_env_condition.
  - intros (f & c & Hin & Hc & Hl). exists f, c.
    split; [exact Hin|]. split; [exact Hc|]. now apply multi_env_condition.
Qed.

Lemma multi_env_witness :
  gh_tree (one_workflow "environment: Production") "x" "y" = Ok (Some ci_tree) /\
  (forall f, In f (wfFiles ci_tree) ->
     ghRaw (one_workflow "environment: Production") "x" "y" f
     = Ok (only_ci_yml "environment: Production" f)) /\
  passes (Checks.multi_env (one_workflow "environment: Production") "x" "y" team_a)
  = true.
Proof.
  split; [reflexivity|]. split; [intros f _; reflexivity|].
  apply (proj2 (multi_env_iff (one_workflow "environment: Production") "x" "y"
                  team_a ci_tree (only_ci_yml "environment: Production") eq_refl
                  (fun f _ => eq_refl))).
  exists ".github/workflows/ci.yml", "environment: Production".
  split; [left; reflexivity|]. split; [reflexivity|].
  right. left. reflexivity.
Defined.

Lemma no_filtered {A : Type} (p : A -> bool) (l : list A) :
  Nat.eqb (List.length (filter p l)) 0 = false <-> exists x, In x l /\ p x = true.
Proof.
  rewrite Nat.eqb_neq. split.
  - intros H. destruct (filter p l) as [|x rest] eqn:E; [now contradiction H|].
    assert (Hin : In x (filter p l)) by (rewrite E; now left).
    apply filter_In in Hin. now exists x.
  - intros (x & Hin & Hp) H.
    assert (Hx : In x (filter p l)) by (apply filter_In; now split).
    destruct (filter p l); [destruct Hx | discriminate H].
Qed.

(** X9.  When the tree and the workflow files can be read, [tests_exist]
    passes if and only if some path of the tree has the name of a test file
    and some workflow file contains, in any letter case, one of [pytest],
    [jest], [vitest], [npm test] and [npm run test]. *)
Theorem tests_exist_iff :
  forall (w : World) (o r : string) (t : Team) (tree : list TreeEntry)
         (files : string -> option string),
    gh_tree w o r = Ok (Some tree) ->
    (forall f, In f (wfFiles tree) -> ghRaw w o r f = Ok (files f)) ->
    (passes (Checks.tests_exist w o r t) = true <->
     (exists e, In e tree /\ Checks.is_test_file e = true) /\
     (exists f c k,
        In f (wfFiles tree) /\ files f = Some c /\
        In k ["pytest"; "jest"; "vitest"; "npm test"; "npm run test"] /\
        Js.includes (Js.toLowerCase c) k = true)).
Proof.
  intros w o r t tree files Htree Hraw.
  unfold Checks.tests_exist. rewrite Htree. cbn [bind].
  destruct (Nat.eqb (List.length (filter Checks.is_test_file tree)) 0) eqn:E.
  - cbn [passes pass no]. split; [discriminate|]. intros [Htest _].
    apply no_filtered in Htest. congruence.
  - apply no_filtered in E.
    rewrite (scan_passes w o r files (wfFiles tree)
               (fun content =>
                  any_of (Js.toLowerCase content) Checks.test_runner_keywords)
               (fun _ _ =>
                  Js.of_nat (List.length (filter Checks.is_test_file tree))
                  ++ " test file(s), tests run in CI") _ Hraw eq_refl).
    split.
    + intros (f & c & Hin & Hc & Hany). split; [exact E|].
      apply any_of_iff in Hany. destruct Hany as (k & Hk & Hinc).
      now exists f, c, k.
    + intros [_ (f & c & k & Hin & Hc & Hk & Hinc)]. exists f, c.
      split; [exact Hin|]. split; [exact Hc|]. apply any_of_iff. now exists k.
Qed.

Lemma tests_exist_witness :
  gh_tree tested "x" "y" = Ok (Some tested_tree) /\
  (forall f, In f (wfFiles tested_tree) ->
     ghRaw tested "x" "y" f = Ok (only_ci_yml "run: pytest --cov=app" f)) /\
  passes (Checks.tests_exist tested "x" "y" team_a) = true.
Proof.
  split; [reflexivity|]. split; [intros f _; reflexivity|].
  apply (proj2 (tests_exist_iff tested "x" "y" team_a tested_tree
                  (only_ci_yml "run: pytest --cov=app") eq_refl
                  (fun f _ => eq_refl))).
  split.
  - exists (mkEntry "tests/test_main.py"). split; [right; left; reflexivity|].
    vm_compute. reflexivity.
  - exists ".github/workflows/ci.yml", "run: pytest --cov=app", "pytest".
    split; [left; reflexivity|]. split; [reflexivity|].
    split; [left; reflexivity | reflexivity].
Defined.

(** X10.  When the tree, the workflow files, the latest run and its
    artifacts can be read, [coverage_70] passes if and only if some
    workflow file contains [--cov] or [coverage], in lower case as written,
    and the latest run on main has conclusion [success].  No percentage is
    read, and the artifacts of the run do not change the verdict. *)
Theorem coverage_70_iff :
  forall (w : World) (o r : string) (t : Team) (tree : list TreeEntry)
         (files : string -> option string) (runs : option (list Run)),
    gh_tree w o r = Ok (Some tree) ->
    (forall f, In f (wfFiles tree) -> ghRaw w o r f = Ok (files f)) ->
    gh_runs w o r None 1 = Ok runs ->
    (forall i, answered (gh_artifacts w o r i)) ->
    (passes (Checks.coverage_70 w o r t) = true <->
     (exists f c,
        In f (wfFiles tree) /\ files f = Some c /\
        (Js.includes c "--cov" = true \/ Js.includes c "coverage" = true)) /\
     (exists last rest,
        runs = Some (last :: rest) /\ conclusion last = Some "success")).
Proof.
  intros w o r t tree files runs Htree Hraw Hruns Hart.
  unfold Checks.coverage_70. rewrite Htree. cbn [bind].
  destruct (scan_decides w o r files (wfFiles tree)
              (fun _ content =>
                 if (Js.includes content "--cov" || Js.includes content "coverage"
                     || Js.includes content "--coverage")%bool
                 then Some tt else None) Hraw)
    as [(f & c & v & -> & Hin & Hc & Hne & Hb)|[-> Hall]]; cbn [bind negb].
  - assert (Hcov : Js.includes c "--cov" = true \/ Js.includes c "coverage" = true).
    { destruct (Js.includes c "--cov"); [now left|].
      destruct (Js.includes c "coverage") eqn:E; [now right|].
      destruct (Js.includes c "--coverage") eqn:E'; [|discriminate Hb].
      right. rewrite <- E. now apply (includes_trans _ "--coverage"). }
    rewrite Hruns. cbn [bind].
    destruct runs as [[|last rest]|]; cbn [passes pass no].
    1, 3: split; [discriminate | intros [_ (? & ? & H & _)]; discriminate H].
    destruct (Hart (id last)) as [arts ->]. cbn [bind passes pass andb].
    rewrite is_success_iff. split.
    + intros Hgreen. split; [now exists f, c | now exists last, rest].
    + intros [_ (last' & rest' & [= <- <-] & Hgreen)]. exact Hgreen.
  - split; [discriminate|]. intros [(f & c & Hin & Hc & Hcov) _].
    assert (Hne : c <> EmptyString).
    { destruct Hcov as [H|H]; now apply (includes_nonempty _ _ H). }
    specialize (Hall f c Hin Hc Hne). cbv beta in Hall.
    destruct Hcov as [H|H]; rewrite H in Hall; simpl in Hall;
      try rewrite orb_true_r in Hall; discriminate Hall.
Qed.

Lemma coverage_70_witness :
  gh_tree tested "x" "y" = Ok (Some tested_tree) /\
  gh_runs tested "x" "y" None 1 = Ok (Some [green_run]) /\
  passes (Checks.coverage_70 tested "x" "y" team_a) = true.
Proof.
  split; [reflexivity|]. split; [reflexivity|].
  apply (proj2 (coverage_70_iff tested "x" "y" team_a tested_tree
                  (only_ci_yml "run: pytest --cov=app") (Some [green_run])
                  eq_refl (fun f _ => eq_refl) eq_refl
                  (fun i => ex_intro _ None eq_refl))).
  split.
  - exists ".github/workflows/ci.yml", "run: pytest --cov=app".
    split; [left; reflexivity|]. split; [reflexivity|].
    left. reflexivity.
  - exists green_run, []. split; reflexivity.
Defined.

(** X11.  When the tree and the workflow files can be read, [quality_gate]
    passes if and only if some workflow file contains, in any letter case,
    one of [sonar], [codeclimate], [codecov] and [quality], or some path of
    the tree contains [sonar-project.properties] or [sonarcloud]; a
    configuration file alone is enough. *)
Theorem quality_gate_iff :
  forall (w : World) (o r : string) (t : Team) (tree : list TreeEntry)
         (files : string -> option string),
    gh_tree w o r = Ok (Some tree) ->
    (forall f, In f (wfFiles tree) -> ghRaw w o r f = Ok (files f)) ->
    (passes (Checks.quality_gate w o r t) = true <->
     (exists f c k,
        In f (wfFiles tree) /\ files f = Some c /\
        In k ["sonar"; "codeclimate"; "codecov"; "quality"] /\
        Js.includes (Js.toLowerCase c) k = true) \/
     (exists e, In e tree /\
        (Js.includes (path e) "sonar-project.properties" = true \/
         Js.includes (path e) "sonarcloud" = true))).
Proof.
  intros w o r t tree files Htree Hraw.
  unfold Checks.quality_gate. rewrite Htree. cbn [bind].
  destruct (scan_decides w o r files (wfFiles tree)
              (fun _ content =>
                 if 0 <? Z.of_nat (List.length
                                     (filter (Js.includes (Js.toLowerCase content))
                                             Checks.quality_keywords))
                 then Some (yes ("Found: "
                                 ++ Js.join ", "
                                      (filter (Js.includes (Js.toLowerCase content))
                                              Checks.quality_keywords)))
                 else None) Hraw)
    as [(f & c & v & -> & Hin & Hc & Hne & Hb)|[-> Hall]]; cbn [bind].
  - destruct (0 <? _) eqn:E in Hb; [|discriminate Hb]. injection Hb as <-.
    cbn [passes pass yes]. split; [|reflexivity]. intros _. left.
    apply filter_found in E. destruct E as (k & Hk & Hinc). now exists f, c, k.
  - assert (Hsonar : (0 <? Z.of_nat (List.length (filter Checks.is_sonar_file tree)))
                     = true <->
                     exists e, In e tree /\
                       (Js.includes (path e) "sonar-project.properties" = true \/
                        Js.includes (path e) "sonarcloud" = true)).
    { rewrite filter_found. unfold Checks.is_sonar_file.
      split; intros (e & Hin & H); exists e; (split; [exact Hin|]);
        [now apply orb_true_iff in H | now apply orb_true_iff]. }
    destruct (0 <? Z.of_nat (List.length (filter Checks.is_sonar_file tree))) eqn:E;
      cbn [passes pass yes no].
    + split; [|reflexivity]. intros _. right. now apply Hsonar.
    + split; [discriminate|]. intros [(f & c & k & Hin & Hc & Hk & Hinc)|Hs].
      * assert (Hne : c <> EmptyString).
        { apply toLowerCase_nonempty. apply (includes_nonempty _ _ Hinc).
          simpl in Hk. intros ->.
          destruct Hk as [H|[H|[H|[H|[]]]]]; discriminate H. }
        specialize (Hall f c Hin Hc Hne). cbv beta in Hall.
        assert (Hf : (0 <? Z.of_nat (List.length
                                       (filter (Js.includes (Js.toLowerCase c))
                                               Checks.quality_keywords))) = true)
          by (apply filter_found; now exists k).
        rewrite Hf in Hall. discriminate Hall.
      * apply Hsonar in Hs. discriminate Hs.
Qed.

Lemma quality_gate_witness :
  gh_tree (with_tree unavailable (Some [mkEntry "sonar-project.properties"])) "x" "y"
  = Ok (Some [mkEntry "sonar-project.properties"]) /\
  passes (Checks.quality_gate
            (with_tree unavailable (Some [mkEntry "sonar-project.properties"]))
            "x" "y" team_a) = true.
Proof.
  split; [reflexivity|].
  apply (proj2 (quality_gate_iff
                  (with_tree unavailable (Some [mkEntry "sonar-project.properties"]))
                  "x" "y" team_a [mkEntry "sonar-project.properties"]
                  (fun _ => None) eq_refl (fun f _ => eq_refl))).
  right. exists (mkEntry "sonar-project.properties").
  split; [left; reflexivity|]. left. reflexivity.
Defined.

(** X12.  [ghcr_published] passes as soon as the API lists a container
    package, without reading the tree: it passes even in a world where the
    request for the tree throws.  When no package is listed and the tree
    and the workflow files can be read, it passes if and only if some
    workflow file contains both [ghcr.io] and [push], in lower case as
    written. *)
Theorem ghcr_published_iff :
  forall (w : World) (o r : string) (t : Team),
    (forall l, gh_packages w o r = Ok (Some l) -> l <> [] ->
       Checks.ghcr_published w o r t
       = Ok (yes (Js.of_nat (List.length l) ++ " package(s) published"))) /\
    (forall (tree : list TreeEntry) (files : string -> option string),
       gh_packages w o r = Ok None \/ gh_packages w o r = Ok (Some []) ->
       gh_tree w o r = Ok (Some tree) ->
       (forall f, In f (wfFiles tree) -> ghRaw w o r f = Ok (files f)) ->
       (passes (Checks.ghcr_published w o r t) = true <->
        exists f c,
          In f (wfFiles tree) /\ files f = Some c /\
          Js.includes c "ghcr.io" = true /\ Js.includes c "push" = true)).
Proof.
  intros w o r t. split.
  - intros l Hpk Hne. unfold Checks.ghcr_published. rewrite Hpk. cbn [bind].
    destruct l as [|u l]; [contradiction|]. reflexivity.
  - intros tree files Hpk Htree Hraw.
    assert (Hrun : Checks.ghcr_published w o r t
                   = (hit <- scan w o r (wfFiles tree) (fun wf content =>
                               if (Js.includes content "ghcr.io"
                                   && Js.includes content "push")%bool
                               then Some (yes ("GHCR push configured in " ++ wf))
                               else None) ;;
                      Ok (or_else hit (no "No container packages found")))).
    { unfold Checks.ghcr_published.
      destruct Hpk as [-> | ->]; cbn [bind]; rewrite Htree; reflexivity. }
    rewrite Hrun.
    rewrite (scan_passes w o r files (wfFiles tree)
               (fun content =>
                  (Js.includes content "ghcr.io" && Js.includes content "push")%bool)
               (fun wf _ => "GHCR push configured in " ++ wf) _ Hraw eq_refl).
    split; intros (f & c & Hin & Hc & H); exists f, c;
      (split; [exact Hin|]); (split; [exact Hc|]).
    + now apply andb_true_iff in H.
    + now apply andb_true_iff.
Qed.

Lemma ghcr_published_witness :
  gh_packages packages_only "x" "y" = Ok (Some [tt; tt]) /\
  gh_tree packages_only "x" "y" = Throw "fetch failed" /\
  Checks.ghcr_published packages_only "x" "y" team_a
  = Ok (yes "2 package(s) published").
Proof.
  split; [reflexivity|]. split; [reflexivity|].
  refine (proj1 (ghcr_published_iff packages_only "x" "y" team_a)
            [tt; tt] eq_refl _).
  discriminate.
Defined.

(** X13.  [pipeline_green] passes if and only if the API returns a latest
    run on main whose conclusion is [success]; and the two checks that read
    the same run depend on it: whenever [tests_pass] or [coverage_70]
    passes, [pipeline_green] passes too. *)
Theorem green_run_is_needed :
  forall (w : World) (o r : string) (t : Team),
    (passes (Checks.pipeline_green w o r t) = true <->
     exists last rest,
       gh_runs w o r None 1 = Ok (Some (last :: rest)) /\
       conclusion last = Some "success") /\
    (passes (Checks.tests_pass w o r t) = true ->
     passes (Checks.pipeline_green w o r t) = true) /\
    (passes (Checks.coverage_70 w o r t) = true ->
     passes (Checks.pipeline_green w o r t) = true).
Proof.
  intros w o r t. split; [|split].
  - unfold Checks.pipeline_green.
    destruct (gh_runs w o r None 1) as [[[|last rest]|]|m]; cbn [bind passes pass no].
    1, 3, 4: split; [discriminate | intros (? & ? & H & _); discriminate H].
    rewrite is_success_iff. split.
    + intros H. now exists last, rest.
    + intros (last' & rest' & [= <- <-] & H). exact H.
  - unfold Checks.tests_pass, Checks.pipeline_green.
    destruct (gh_runs w o r None 1) as [[[|last rest]|]|m];
      cbn [bind passes pass no]; try discriminate.
    destruct (is_success (conclusion last)); cbn [negb passes pass no];
      [reflexivity | discriminate].
  - unfold Checks.coverage_70, Checks.pipeline_green.
    destruct (gh_tree w o r) as [[tree|]|m]; cbn [bind passes pass no];
      try discriminate.
    destruct (scan w o r (wfFiles tree) _) as [[u|]|m];
      cbn [bind negb passes pass no]; try discriminate.
    destruct (gh_runs w o r None 1) as [[[|last rest]|]|m];
      cbn [bind passes pass no]; try discriminate.
    destruct (gh_artifacts w o r (id last)) as [arts|m];
      cbn [bind passes pass no andb]; [tauto | discriminate].
Qed.

(** X14.  The checks that look into workflow files depend on
    [pipeline_exists]: whenever the lint, tests-exist, coverage, docker
    build, security scan, auto-deploy or multi-environment check passes,
    [pipeline_exists] passes too. *)
Theorem workflow_checks_need_a_workflow :
  forall (w : World) (o r : string) (t : Team),
    passes (Checks.lint_pass w o r t) = true \/
    passes (Checks.tests_exist w o r t) = true \/
    passes (Checks.coverage_70 w o r t) = true \/
    passes (Checks.docker_builds w o r t) = true \/
    passes (Checks.security_scan w o r t) = true \/
    passes (Checks.auto_deploy w o r t) = true \/
    passes (Checks.multi_env w o r t) = true ->
    passes (Checks.pipeline_exists w o r t) = true.
Proof.
  intros w o r t.
  unfold Checks.lint_pass, Checks.tests_exist, Checks.coverage_70,
    Checks.docker_builds, Checks.security_scan, Checks.auto_deploy,
    Checks.multi_env, Checks.pipeline_exists.
  destruct (gh_tree w o r) as [[tree|]|m]; cbn [bind passes pass no];
    [| intros H; decompose [or] H; discriminate
     | intros H; decompose [or] H; discriminate].
  destruct (wfFiles tree) as [|f rest]; [|intros _; reflexivity].
  cbn [scan bind or_else negb passes pass no].
  destruct (Nat.eqb _ 0); cbn [bind or_else passes pass no];
    intros H; decompose [or] H; discriminate.
Qed.

Lemma workflow_checks_witness :
  passes (Checks.docker_builds (one_workflow "run: docker build .") "x" "y" team_a)
  = true /\
  passes (Checks.pipeline_exists (one_workflow "run: docker build .") "x" "y" team_a)
  = true.
Proof.
  split; [reflexivity|].
  apply (workflow_checks_need_a_workflow (one_workflow "run: docker build .")
           "x" "y" team_a).
  right. right. right. left. reflexivity.
Defined.

(** X15.  [dependabot] looks for [.github/dependabot.yml], then
    [renovate.json], then [.github/renovate.json], and stops at the first
    that has a content: when the first one exists it passes whatever the
    requests for the others would do, and when the three requests return
    it passes if and only if one of the three files has a content. *)
Theorem dependabot_iff :
  forall (w : World) (o r : string) (t : Team),
    (forall c, ghRaw w o r ".github/dependabot.yml" = Ok (Some c) ->
       c <> EmptyString ->
       Checks.dependabot w o r t = Ok (yes "dependabot.yml found")) /\
    (forall files : string -> option string,
       (forall p, In p [".github/dependabot.yml"; "renovate.json";
                        ".github/renovate.json"] ->
                  ghRaw w o r p = Ok (files p)) ->
       (passes (Checks.dependabot w o r t) = true <->
        exists p, In p [".github/dependabot.yml"; "renovate.json";
                        ".github/renovate.json"] /\
                  Js.truthy (files p) = true)).
Proof.
  intros w o r t. split.
  - intros c Hc Hne. unfold Checks.dependabot. rewrite Hc. cbn [bind].
    now rewrite (truthy_some c Hne).
  - intros files Hraw. unfold Checks.dependabot.
    rewrite (Hraw ".github/dependabot.yml"), (Hraw "renovate.json"),
      (Hraw ".github/renovate.json") by (simpl; tauto).
    cbn [bind].
    destruct (Js.truthy (files ".github/dependabot.yml")) eqn:E1;
      [|destruct (Js.truthy (files "renovate.json")) eqn:E2;
        [|destruct (Js.truthy (files ".github/renovate.json")) eqn:E3]];
      cbn [bind passes pass yes no].
    + split; [|reflexivity]. intros _. exists ".github/dependabot.yml".
      split; [simpl; tauto | exact E1].
    + split; [|reflexivity]. intros _. exists "renovate.json".
      split; [simpl; tauto | exact E2].
    + split; [|reflexivity]. intros _. exists ".github/renovate.json".
      split; [simpl; tauto | exact E3].
    + split; [discriminate|]. intros (p & [<-|[<-|[<-|[]]]] & H); congruence.
Qed.

Lemma dependabot_witness :
  (forall p, In p [".github/dependabot.yml"; "renovate.json"; ".github/renovate.json"] ->
     ghRaw (with_files unavailable renovate_only) "x" "y" p = Ok (renovate_only p)) /\
  passes (Checks.dependabot (with_files unavailable renovate_only) "x" "y" team_a)
  = true.
Proof.
  split; [intros p _; reflexivity|].
  apply (proj2 (proj2 (dependabot_iff (with_files unavailable renovate_only)
                         "x" "y" team_a)
                  renovate_only (fun p _ => eq_refl))).
  exists "renovate.json". split; [right; left; reflexivity | reflexivity].
Defined.

(** ** A repository that cannot be read *)

Lemma missing_checks_fail (w : World) (t : Team) (key : string) (c : Check) :
  all_missing w (owner_of t) (repo_of t) ->
  In (key, c) CHECKS ->
  key <> "no_secrets_in_code" -> key <> "deployed" ->
  passes (run c w (owner_of t) (repo_of t) t) = false.
Proof.
  intros (Htree & Hruns & Hpk & Hprot & Hraw) Hin Hk1 Hk2. simpl in Hin.
  repeat (destruct Hin as [Hin|Hin];
          [injection Hin as <- <-; cbn [run];
           first
             [ now contradiction Hk1
             | now contradiction Hk2
             | unfold Checks.pipeline_exists, Checks.pipeline_green,
                 Checks.lint_pass, Checks.tests_exist, Checks.tests_pass,
                 Checks.coverage_70, Checks.dockerfile_exists,
                 Checks.docker_builds, Checks.security_scan,
                 Checks.ghcr_published, Checks.quality_gate,
                 Checks.branch_protection, Checks.auto_deploy, Checks.multi_env,
                 Checks.pipeline_fast, Checks.dependabot;
               rewrite ?Htree, ?Hruns, ?Hpk, ?Hprot, ?Hraw; cbn [bind];
               rewrite ?Htree, ?Hraw; cbn [bind];
               rewrite ?Hraw; reflexivity ] |]).
  destruct Hin.
Qed.

Lemma missing_no_secrets (w : World) (o r : string) (t : Team) :
  (forall p, ghRaw w o r p = Ok None) ->
  Checks.no_secrets_in_code w o r t = Ok (yes "No hardcoded secrets detected").
Proof.
  intros Hraw. unfold Checks.no_secrets_in_code, Checks.secret_files.
  cbn [scan]. rewrite !Hraw. reflexivity.
Qed.

(** X16.  When nothing of a repository can be read (every request about
    it is answered with "not found"), its audit is not zero: the check
    [no_secrets_in_code] passes, every other check except [deployed]
    fails, and the total is 5, or 15 when the deploy URL answers. *)
Theorem unreadable_repository_scores :
  forall (w : World) (t : Team),
    all_missing w (owner_of t) (repo_of t) ->
    passes (Checks.no_secrets_in_code w (owner_of t) (repo_of t) t) = true /\
    (forall key c, In (key, c) CHECKS ->
       key <> "no_secrets_in_code" -> key <> "deployed" ->
       passes (run c w (owner_of t) (repo_of t) t) = false) /\
    total (scoreTeam w t)
    = 5 + (if passes (Checks.deployed w (owner_of t) (repo_of t) t) then 10 else 0).
Proof.
  intros w t Hmiss.
  pose proof (missing_no_secrets w (owner_of t) (repo_of t) t
                (proj2 (proj2 (proj2 (proj2 Hmiss))))) as Hsec.
  split; [now rewrite Hsec|]. split.
  - intros key c Hin Hk1 Hk2. now apply (missing_checks_fail w t key c).
  - unfold scoreTeam, scoreTeamWith. cbn [total]. rewrite loop_total.
    cbn [tally_total]. unfold CHECKS. cbn [awarded run points].
    rewrite Hsec. cbn [passes pass yes].
    repeat match goal with
           | |- context [passes (?p w (owner_of t) (repo_of t) t)] =>
               lazymatch p with
               | Checks.deployed => fail
               | _ =>
                   let H := fresh "H" in
                   assert (H : passes (p w (owner_of t) (repo_of t) t) = false)
                     by (eapply (missing_checks_fail w t _ (mkCheck _ _ _ p) Hmiss);
                         [simpl; tauto | discriminate | discriminate]);
                   rewrite H; clear H
               end
           end.
    destruct (passes (Checks.deployed w (owner_of t) (repo_of t) t)); reflexivity.
Qed.

Lemma unreadable_repository_witness :
  all_missing unavailable (owner_of team_b) (repo_of team_b) /\
  total (scoreTeam unavailable team_b) = 5.
Proof.
  assert (H : all_missing unavailable (owner_of team_b) (repo_of team_b)).
  { repeat split. }
  split; [exact H|].
  exact (proj2 (proj2 (unreadable_repository_scores unavailable team_b H))).
Defined.

(** ** The first matching file decides *)

Lemma scan_first {A : Type} (w : World) (o r : string) (pre post : list string)
    (f c : string) (v : A) (body : string -> string -> option A) :
  (forall p, In p pre ->
     exists x, ghRaw w o r p = Ok x /\
               forall c', x = Some c' -> c' <> EmptyString -> body p c' = None) ->
  ghRaw w o r f = Ok (Some c) -> c <> EmptyString -> body f c = Some v ->
  scan w o r (pre ++ f :: post)%list body = Ok (Some v).
Proof.
  intros Hpre Hf Hne Hb. induction pre as [|p pre IH]; cbn [app scan].
  - rewrite Hf. cbn [bind]. apply String.eqb_neq in Hne. now rewrite Hne, Hb.
  - destruct (Hpre p (or_introl eq_refl)) as (x & -> & Hx). cbn [bind].
    assert (IH' := IH (fun q Hq => Hpre q (or_intror Hq))).
    destruct x as [c'|]; [|exact IH'].
    destruct (String.eqb c' EmptyString) eqn:E; [exact IH'|].
    apply String.eqb_neq in E. now rewrite (Hx c' eq_refl E).
Qed.

(** X17.  [lint_pass] reads the workflow files in the order of the tree and
    stops at the first whose content has a lint keyword: its detail names
    that file, and the files after it are not requested, so the verdict is
    the same whatever those requests would return or throw. *)
Theorem first_matching_workflow_decides :
  forall (w : World) (o r : string) (t : Team) (tree : list TreeEntry)
         (pre post : list string) (f c : string),
    gh_tree w o r = Ok (Some tree) ->
    wfFiles tree = (pre ++ f :: post)%list ->
    (forall p, In p pre ->
       exists x, ghRaw w o r p = Ok x /\
                 forall c', x = Some c' ->
                   any_of (Js.toLowerCase c') Checks.lint_keywords = false) ->
    ghRaw w o r f = Ok (Some c) ->
    any_of (Js.toLowerCase c) Checks.lint_keywords = true ->
    Checks.lint_pass w o r t = Ok (yes ("Lint found in " ++ f)).
Proof.
  intros w o r t tree pre post f c Htree Hwf Hpre Hf Hc.
  unfold Checks.lint_pass. rewrite Htree. cbn [bind]. rewrite Hwf.
  rewrite (scan_first w o r pre post f c (yes ("Lint found in " ++ f))).
  - reflexivity.
  - intros p Hin. destruct (Hpre p Hin) as (x & Hx & Hmiss).
    exists x. split; [exact Hx|]. intros c' -> _. cbv beta zeta.
    now rewrite (Hmiss c' eq_refl).
  - exact Hf.
  - intros ->. discriminate Hc.
  - cbv beta zeta. now rewrite Hc.
Qed.

Lemma first_matching_workflow_witness :
  gh_tree second_unreachable "x" "y" = Ok (Some two_workflows_tree) /\
  ghRaw second_unreachable "x" "y" ".github/workflows/b.yml" = Throw "fetch failed" /\
  Checks.lint_pass second_unreachable "x" "y" team_a
  = Ok (yes "Lint found in .github/workflows/a.yml").
Proof.
  split; [reflexivity|]. split; [reflexivity|].
  refine (first_matching_workflow_decides second_unreachable "x" "y" team_a
            two_workflows_tree [] [".github/workflows/b.yml"]
            ".github/workflows/a.yml" "run: ruff check ."
            eq_refl eq_refl _ eq_refl eq_refl).
  intros p [].
Defined.

(** ** Owner and repository name *)

Lemma split_slash_nonempty (s : string) : Js.split_slash s <> [].
Proof.
  destruct s as [|c s]; simpl; [discriminate|].
  destruct (Ascii.eqb c "/"); [discriminate|].
  destruct (Js.split_slash s); discriminate.
Qed.

Lemma split_slash_plain (s : string) :
  Js.includes s "/" = false -> Js.split_slash s = [s].
Proof.
  induction s as [|c s IH]; [reflexivity|].
  cbn [Js.includes Js.startsWith Js.split_slash]. intros H.
  apply orb_false_iff in H. destruct H as [Hc Hs].
  destruct s as [|c' s'].
  - simpl in Hc. rewrite andb_true_r in Hc. rewrite Hc. reflexivity.
  - assert (Hc' : Ascii.eqb c "/" = false).
    { simpl in Hc. now rewrite andb_true_r in Hc. }
    rewrite Hc', (IH Hs). reflexivity.
Qed.

Lemma split_slash_first (a b : string) :
  Js.includes a "/" = false ->
  Js.split_slash (a ++ "/" ++ b) = a :: Js.split_slash b.
Proof.
  induction a as [|c a IH]; intros H.
  - reflexivity.
  - cbn [Js.includes Js.startsWith] in H.
    apply orb_false_iff in H. destruct H as [Hc Ha].
    assert (Hc' : Ascii.eqb c "/" = false).
    { destruct a; simpl in Hc; now rewrite andb_true_r in Hc. }
    change ((String c a) ++ "/" ++ b) with (String c (a ++ "/" ++ b)).
    cbn [Js.split_slash]. rewrite Hc', (IH Ha). reflexivity.
Qed.

(** X18.  [scoreTeam] takes the owner and the repository name from the
    first two pieces of [team.repo] between slashes: for ["owner/name"] they
    are [owner] and [name]; pieces after a second slash are ignored; and
    when [team.repo] has no slash the repository name used in every
    request is the text [undefined]. *)
Theorem owner_and_repo_of_identifier :
  forall (t : Team),
    (Js.includes (t_repo t) "/" = false ->
     owner_of t = t_repo t /\ repo_of t = "undefined") /\
    (forall a b,
       t_repo t = a ++ "/" ++ b ->
       Js.includes a "/" = false -> Js.includes b "/" = false ->
       owner_of t = a /\ repo_of t = b) /\
    (forall a b rest,
       t_repo t = a ++ "/" ++ b ++ "/" ++ rest ->
       Js.includes a "/" = false -> Js.includes b "/" = false ->
       owner_of t = a /\ repo_of t = b).
Proof.
  intros t. unfold owner_of, repo_of, Js.piece.
  split; [|split].
  - intros H. rewrite (split_slash_plain _ H). split; reflexivity.
  - intros a b -> Ha Hb.
    rewrite (split_slash_first a b Ha), (split_slash_plain b Hb).
    split; reflexivity.
  - intros a b rest -> Ha Hb.
    rewrite (split_slash_first a _ Ha), (split_slash_first b rest Hb).
    split; reflexivity.
Qed.

Lemma owner_and_repo_witness :
  owner_of (mkTeam "C" [] "acme/todo/extra" None) = "acme" /\
  repo_of (mkTeam "C" [] "acme/todo/extra" None) = "todo".
Proof.
  exact (proj2 (proj2 (owner_and_repo_of_identifier
                         (mkTeam "C" [] "acme/todo/extra" None)))
           "acme" "todo" "extra" eq_refl eq_refl eq_refl).
Defined.

(** ** The ranking *)

Lemma In_nth_error_ex {A : Type} (l : list A) (x : A) :
  In x l -> exists k, nth_error l k = Some x.
Proof.
  induction l as [|a l IH]; intros H; [destruct H|].
  destruct H as [->|H].
  - now exists 0%nat.
  - destruct (IH H) as [k Hk]. now exists (S k).
Qed.

Lemma rank_scores_sorted_stable_facts (scores : list Audit) :
  (forall (i j : nat) (a b : Ranked),
      (i < j)%nat ->
      nth_error (rank_scores scores) i = Some a ->
      nth_error (rank_scores scores) j = Some b ->
      total (score b) <= total (score a)) /\
  (forall (k : nat) (e : Ranked),
      nth_error (rank_scores scores) k = Some e -> rank e = Z.of_nat k + 1).
Proof.
  split.
  - intros i j a b Hlt Ha Hb.
    apply (sorted_nth (sort scores) (sort_sorted scores) i j); [exact Hlt | |];
      rewrite <- rank_scores_score, nth_error_map.
    + now rewrite Ha.
    + now rewrite Hb.
  - intros k e H. unfold rank_scores in H. apply add_rank_nth in H. lia.
Qed.

(** X19.  In the ranking of any sequence of audits, a larger total always
    gets a smaller rank number, every rank lies between 1 and the number of
    audits, and the entry of rank 1 has the largest total. *)
Theorem larger_total_ranks_first :
  forall (scores : list Audit) (e e' : Ranked),
    In e (rank_scores scores) -> In e' (rank_scores scores) ->
    (total (score e) > total (score e') -> rank e < rank e') /\
    1 <= rank e <= Z.of_nat (List.length scores) /\
    (rank e = 1 -> total (score e') <= total (score e)).
Proof.
  intros scores e e' He He'.
  destruct (In_nth_error_ex _ _ He) as [i Hi].
  destruct (In_nth_error_ex _ _ He') as [j Hj].
  destruct (rank_scores_sorted_stable_facts scores) as (Hsorted & Hrank).
  pose proof (Hrank i e Hi) as Ri. pose proof (Hrank j e' Hj) as Rj.
  assert (Hlen : (i < List.length scores)%nat).
  { rewrite <- rank_scores_length. apply nth_error_Some. now rewrite Hi. }
  split; [|split].
  - intros Hgt. rewrite Ri, Rj.
    destruct (Nat.lt_trichotomy i j) as [Hlt|[Heq|Hlt]]; [lia| |].
    + subst j. rewrite Hi in Hj. injection Hj as <-. lia.
    + pose proof (Hsorted j i e' e Hlt Hj Hi). lia.
  - lia.
  - intros H1. assert (i = 0)%nat by lia. subst i.
    destruct j as [|j].
    + rewrite Hi in Hj. injection Hj as <-. lia.
    + apply (Hsorted 0%nat (S j) e e'); [lia | exact Hi | exact Hj].
Qed.

Lemma larger_total_witness :
  In (mkRanked (audit_of "B" 70) 1) (rank_scores [audit_of "A" 40; audit_of "B" 70]) /\
  In (mkRanked (audit_of "A" 40) 2) (rank_scores [audit_of "A" 40; audit_of "B" 70]) /\
  rank (mkRanked (audit_of "B" 70) 1) < rank (mkRanked (audit_of "A" 40) 2).
Proof.
  split; [left; reflexivity|]. split; [right; left; reflexivity|].
  exact (proj1 (larger_total_ranks_first [audit_of "A" 40; audit_of "B" 70]
                  (mkRanked (audit_of "B" 70) 1) (mkRanked (audit_of "A" 40) 2)
                  (or_introl eq_refl) (or_intror (or_introl eq_refl)))
           eq_refl).
Defined.

Lemma sorted_perm_unique (l l' : list Audit) :
  StronglySorted not_below l -> StronglySorted not_below l' ->
  Permutation l l' ->
  (forall a b, In a l -> In b l -> total a = total b -> a = b) ->
  l = l'.
Proof.
  intros Hs. revert l'. induction Hs as [|a l Hs IH Ha]; intros l' Hs' Hp Hinj.
  - apply Permutation_nil in Hp. now subst.
  - destruct Hs' as [|a' l1 Hs1 Ha'].
    + apply Permutation_sym, Permutation_nil in Hp. discriminate Hp.
    + assert (Haa : a = a').
      { rewrite Forall_forall in Ha, Ha'.
        assert (Hin : In a (a' :: l1))
          by (eapply Permutation_in; [exact Hp | now left]).
        assert (Hin' : In a' (a :: l))
          by (eapply Permutation_in; [apply Permutation_sym; exact Hp | now left]).
        destruct Hin as [->|Hin]; [reflexivity|].
        destruct Hin' as [->|Hin']; [reflexivity|].
        apply Hinj; [now left | now right |].
        pose proof (Ha a' Hin'). pose proof (Ha' a Hin).
        unfold not_below in *. lia. }
      subst a'. f_equal. apply IH.
      * exact Hs1.
      * now apply Permutation_cons_inv in Hp.
      * intros x y Hx Hy. apply Hinj; now right.
Qed.

(** X20.  When no two audits have the same total, the leaderboard does
    not depend on the order of the roster: two sequences with the same
    audits in different orders get the same ranking, entry by entry. *)
Theorem ranking_ignores_input_order :
  forall (scores scores' : list Audit),
    Permutation scores scores' ->
    (forall a b, In a scores -> In b scores -> total a = total b -> a = b) ->
    rank_scores scores = rank_scores scores'.
Proof.
  intros scores scores' Hp Hinj. unfold rank_scores. f_equal.
  apply sorted_perm_unique.
  - apply sort_sorted.
  - apply sort_sorted.
  - eapply perm_trans; [apply sort_perm|].
    eapply perm_trans; [exact Hp | apply Permutation_sym, sort_perm].
  - intros a b Ha Hb. apply Hinj.
    + eapply Permutation_in; [apply sort_perm | exact Ha].
    + eapply Permutation_in; [apply sort_perm | exact Hb].
Qed.

Lemma ranking_ignores_order_witness :
  Permutation [audit_of "A" 40; audit_of "B" 70] [audit_of "B" 70; audit_of "A" 40] /\
  rank_scores [audit_of "A" 40; audit_of "B" 70]
  = rank_scores [audit_of "B" 70; audit_of "A" 40].
Proof.
  split; [apply perm_swap|].
  refine (ranking_ignores_input_order [audit_of "A" 40; audit_of "B" 70]
            [audit_of "B" 70; audit_of "A" 40] (perm_swap _ _ _) _).
  intros a b [<-|[<-|[]]] [<-|[<-|[]]] H;
    (reflexivity || discriminate H).
Defined.

(** ** The names of test files *)

Lemma toLowerCase_cons (s : string) (c : ascii) (r : string) :
  Js.toLowerCase s = String c r ->
  exists x s', s = String x s' /\ Js.lower_char x = c /\ Js.toLowerCase s' = r.
Proof.
  destruct s as [|x s']; simpl; intros H; [discriminate H|].
  injection H as Hx Hs. now exists x, s'.
Qed.

Lemma toLowerCase_nil (s : string) :
  Js.toLowerCase s = EmptyString -> s = EmptyString.
Proof. destruct s; simpl; intros H; [reflexivity | discriminate H]. Qed.

Lemma lower_char_dot (x : ascii) : Js.lower_char x = "."%char -> x = "."%char.
Proof.
  destruct x as [[] [] [] [] [] [] [] []]; vm_compute; intros H;
    first [reflexivity | discriminate H].
Qed.

Lemma underscore_or_s_in_line (x : ascii) :
  Ascii.eqb (Js.lower_char x) (Js.lower_char "_") = true \/
  Ascii.eqb (Js.lower_char x) (Js.lower_char "s") = true ->
  negb (Ascii.eqb x Js.newline_char || Ascii.eqb x (ascii_of_nat 13)) = true.
Proof.
  destruct x as [[] [] [] [] [] [] [] []]; vm_compute; intros [H|H];
    first [reflexivity | discriminate H].
Qed.

Lemma all_chars_app (p : ascii -> bool) (a b : string) :
  Regex.all_chars p (a ++ b) = (Regex.all_chars p a && Regex.all_chars p b)%bool.
Proof.
  induction a as [|c a IH]; simpl; [reflexivity|].
  now rewrite IH, andb_assoc.
Qed.

Module TestNames.

Import Regex RegexFacts.

Lemma ext3 (m : string) :
  lang (alts [str_i "py"; str_i "js"; str_i "ts"]) m <->
  In (Js.toLowerCase m) ["py"; "js"; "ts"].
Proof.
  cbn [alts]. rewrite !lang_Alt, !lang_str_i. split.
  - intros [H|[H|H]]; rewrite H; vm_compute; tauto.
  - intros [H|[H|[H|[]]]]; rewrite <- H;
      [left | right; left | right; right]; reflexivity.
Qed.

Lemma ext2 (m : string) :
  lang Checks.ext_js_ts m <-> In (Js.toLowerCase m) ["js"; "ts"].
Proof.
  unfold Checks.ext_js_ts. cbn [alts]. rewrite !lang_Alt, !lang_str_i. split.
  - intros [H|H]; rewrite H; vm_compute; tauto.
  - intros [H|[H|[]]]; rewrite <- H; [left | right]; reflexivity.
Qed.

Lemma ext2_ext3 (m : string) :
  In (Js.toLowerCase m) ["js"; "ts"] -> In (Js.toLowerCase m) ["py"; "js"; "ts"].
Proof. simpl. tauto. Qed.

(** [/test[_s]?.*\.(py|js|ts)$/i] *)
Lemma first_pattern (m : string) :
  lang (seqs [ str_i "test"; opt (Alt (chr_i "_") (chr_i "s")); Star dot;
               chr "."; alts [str_i "py"; str_i "js"; str_i "ts"] ]) m <->
  exists t mid ext,
    m = t ++ mid ++ "." ++ ext /\ Js.toLowerCase t = "test" /\
    no_line_break mid = true /\ In (Js.toLowerCase ext) ["py"; "js"; "ts"].
Proof.
  cbn [seqs]. split.
  - intros H.
    apply lang_Seq in H. destruct H as (t & m1 & -> & Ht & H).
    apply lang_Seq in H. destruct H as (u & m2 & -> & Hu & H).
    apply lang_Seq in H. destruct H as (d & m3 & -> & Hd & H).
    apply lang_Seq in H. destruct H as (dt & ext & -> & Hdt & Hext).
    apply lang_str_i in Ht. apply lang_chr in Hdt. subst dt.
    apply lang_star_cls in Hd. apply ext3 in Hext.
    exists t, (u ++ d), ext. rewrite append_assoc.
    split; [reflexivity|]. split; [exact Ht|]. split; [|exact Hext].
    unfold no_line_break. rewrite all_chars_app, Hd, andb_true_r.
    unfold opt in Hu. apply lang_Alt in Hu. destruct Hu as [Hu|Hu].
    + apply lang_Alt in Hu. unfold chr_i in Hu.
      destruct Hu as [Hu|Hu]; apply lang_Cls in Hu; destruct Hu as (x & -> & Hx);
        simpl; rewrite andb_true_r; apply underscore_or_s_in_line; tauto.
    + apply lang_Eps in Hu. now subst.
  - intros (t & mid & ext & -> & Ht & Hmid & Hext).
    apply lang_Seq. exists t, (mid ++ "." ++ ext). split; [reflexivity|].
    split; [now apply lang_str_i|].
    apply lang_Seq. exists EmptyString, (mid ++ "." ++ ext). split; [reflexivity|].
    split; [apply lang_alt_r; constructor|].
    apply lang_Seq. exists mid, ("." ++ ext). split; [reflexivity|].
    split; [now apply lang_star_cls|].
    apply lang_Seq. exists ".", ext. split; [reflexivity|].
    split; [now apply lang_chr | now apply ext3].
Qed.

Lemma patterns_match (p : string) :
  existsb (fun q => test q p) Checks.test_file_patterns = true <->
  test_named p \/ spec_named p.
Proof.
  unfold Checks.test_file_patterns. cbn [existsb].
  rewrite !orb_true_iff, !test_spec. cbn [body to_end]. split.
  - intros [H|[H|[H|[H|H]]]]; [| | | |discriminate H];
      destruct H as (pre & m & post & -> & Hm & Hend);
      rewrite (Hend eq_refl), append_empty_r.
    + left. apply first_pattern in Hm.
      destruct Hm as (t & mid & ext & -> & Ht & Hmid & Hext).
      now exists pre, t, mid, ext.
    + left. cbn [seqs] in Hm.
      apply lang_Seq in Hm. destruct Hm as (d & m1 & -> & _ & Hm).
      apply lang_Seq in Hm. destruct Hm as (s & ext & -> & Hs & Hext).
      apply lang_str_i in Hs. apply ext2, ext2_ext3 in Hext.
      change (Js.toLowerCase ".test.") with ".test." in Hs.
      apply toLowerCase_cons in Hs. destruct Hs as (x1 & s1 & -> & Hx1 & Hs).
      apply lower_char_dot in Hx1. subst x1.
      apply toLowerCase_cons in Hs. destruct Hs as (x2 & s2 & -> & Hx2 & Hs).
      apply toLowerCase_cons in Hs. destruct Hs as (x3 & s3 & -> & Hx3 & Hs).
      apply toLowerCase_cons in Hs. destruct Hs as (x4 & s4 & -> & Hx4 & Hs).
      apply toLowerCase_cons in Hs. destruct Hs as (x5 & s5 & -> & Hx5 & Hs).
      apply toLowerCase_cons in Hs. destruct Hs as (x6 & s6 & -> & Hx6 & Hs).
      apply lower_char_dot in Hx6. subst x6. apply toLowerCase_nil in Hs. subst s6.
      exists (pre ++ d ++ "."),
        (String x2 (String x3 (String x4 (String x5 EmptyString)))),
        EmptyString, ext.
      split; [rewrite !append_assoc; reflexivity|].
      split; [simpl; now rewrite Hx2, Hx3, Hx4, Hx5|].
      split; [reflexivity | exact Hext].
    + right. cbn [seqs] in Hm.
      apply lang_Seq in Hm. destruct Hm as (d & m1 & -> & _ & Hm).
      apply lang_Seq in Hm. destruct Hm as (s & ext & -> & Hs & Hext).
      apply lang_str_i in Hs. apply ext2 in Hext.
      exists (pre ++ d), s, ext.
      split; [rewrite !append_assoc; reflexivity|]. split; assumption.
    + left. cbn [seqs] in Hm.
      apply lang_Seq in Hm. destruct Hm as (d & s & -> & _ & Hs).
      apply lang_str_i in Hs.
      change (Js.toLowerCase "_test.py") with "_test.py" in Hs.
      apply toLowerCase_cons in Hs. destruct Hs as (x1 & s1 & -> & Hx1 & Hs).
      apply toLowerCase_cons in Hs. destruct Hs as (x2 & s2 & -> & Hx2 & Hs).
      apply toLowerCase_cons in Hs. destruct Hs as (x3 & s3 & -> & Hx3 & Hs).
      apply toLowerCase_cons in Hs. destruct Hs as (x4 & s4 & -> & Hx4 & Hs).
      apply toLowerCase_cons in Hs. destruct Hs as (x5 & s5 & -> & Hx5 & Hs).
      apply toLowerCase_cons in Hs. destruct Hs as (x6 & s6 & -> & Hx6 & Hs).
      apply lower_char_dot in Hx6. subst x6.
      exists (pre ++ d ++ String x1 EmptyString),
        (String x2 (String x3 (String x4 (String x5 EmptyString)))),
        EmptyString, s6.
      split; [rewrite !append_assoc; reflexivity|].
      split; [simpl; now rewrite Hx2, Hx3, Hx4, Hx5|].
      split; [reflexivity|]. rewrite Hs. simpl. tauto.
  - intros [(pre & t & mid & ext & -> & Ht & Hmid & Hext)
           |(pre & s & ext & -> & Hs & Hext)].
    + left. exists pre, (t ++ mid ++ "." ++ ext), EmptyString.
      split; [now rewrite append_empty_r|]. split; [|reflexivity].
      apply first_pattern. now exists t, mid, ext.
    + right. right. left. exists pre, (s ++ ext), EmptyString.
      split; [now rewrite append_empty_r|]. split; [|reflexivity].
      cbn [seqs]. apply lang_Seq. exists EmptyString, (s ++ ext).
      split; [reflexivity|]. split; [constructor|].
      apply lang_Seq. exists s, ext. split; [reflexivity|].
      split; [now apply lang_str_i | now apply ext2].
Qed.

End TestNames.

(** X21.  [tests_exist] counts a path of the tree as a test file exactly
    when it contains [test] in any letter case, followed on the same line
    by anything and then, at its end, the extension [.py], [.js] or [.ts],
    or when it ends with [.spec.js] or [.spec.ts].  The word [test] may be
    part of another word, and the patterns for [.test.js] and [_test.py]
    add nothing to the first one. *)
Theorem test_file_names :
  forall f : TreeEntry,
    Checks.is_test_file f = true <-> test_named (path f) \/ spec_named (path f).
Proof. intros f. apply TestNames.patterns_match. Qed.
